(** * Revenue recognition and cash-flow projection engine of sales-forecast-system

    Shallow embedding of the pieces of the Python code that compute the
    final amount of a project, its payment stages and dates, the cash-flow
    entries and their monthly aggregation, the forecast and the runway.

    Modelling conventions:
    - money and ratios (Python floats) are rationals [Q]; NaN is [None]
      where the code produces it;
    - a calendar date ([datetime] / [pd.Timestamp]) is a record of year,
      month and day over [Z]; a time of day is not carried, no code path
      under study looks at it except the decay factor, which works on
      timestamps in seconds;
    - a year-month string ["YYYY-MM"] is the pair [(year, month)];
    - a DataFrame is a list of records, one per row. *)

From Stdlib Require Import String Ascii ZArith QArith Qround Qabs List Lia Bool.
From Stdlib Require Import Permutation Sorting.Sorted Lqa QOrderedType Qminmax.
From Stdlib Require Import Reals Qreals.
Import ListNotations.

Open Scope Z_scope.

(* ------------------------------------------------------------------ *)
(** ** Calendar: [calendar.monthrange] and [CashFlowHelper._add_months] *)

Module Calendar.

Record date := mkDate { year : Z; month : Z; day : Z }.

(** [calendar.isleap]. *)
Definition isleap (y : Z) : bool :=
  (y mod 4 =? 0) && (negb (y mod 100 =? 0) || (y mod 400 =? 0)).

(** [calendar.monthrange(year, month)[1]]. *)
Definition days_in_month (y m : Z) : Z :=
  if m =? 2 then (if isleap y then 29 else 28)
  else if (m =? 4) || (m =? 6) || (m =? 9) || (m =? 11) then 30
  else 31.

(** [CashFlowHelper._add_months]:
<<
    month = date.month - 1 + months
    year = date.year + month // 12
    month = month % 12 + 1
    day = min(date.day, calendar.monthrange(year, month)[1])
    return date.replace(year=year, month=month, day=day)
>>
    Python's [//] and [%] are floor division and its non-negative
    remainder, i.e. [Z.div] and [Z.modulo]. The same month shift is what
    [relativedelta(months=k)] (used by [apply_template]) and
    [pd.DateOffset(months=k)] (used by [_resolve_payment_date]) compute.
    The bounded year range of the date types (a raised error outside it)
    is not modelled. *)
Definition add_months (d : date) (months : Z) : date :=
  let mo := month d - 1 + months in
  let y := year d + mo / 12 in
  let m := mo mod 12 + 1 in
  let dd := Z.min (day d) (days_in_month y m) in
  mkDate y m dd.

(** [CashFlowHelper._format_to_month] on a date: [strftime('%Y-%m')]. *)
Definition format_to_month (d : date) : Z * Z := (year d, month d).

(** Index of a year-month on the line of months. *)
Definition month_index (ym : Z * Z) : Z := fst ym * 12 + snd ym - 1.

End Calendar.

(* ------------------------------------------------------------------ *)
(** ** [CashFlowHelper._resolve_payment_date] *)

Module PaymentDate.
Import Calendar.

(** The [fallback] argument: ["start"], ["delivery"], ["delivery_plus_one"]. *)
Inductive fallback := FStart | FDelivery | FDeliveryPlusOne.

(**
<<
    explicit_value = project_row.get(explicit_col)
    if pd.notna(explicit_value): return explicit_value
    start_time = project_row.get("开始时间")
    delivery_time = project_row.get("交付时间")
    if fallback == "start": return start_time
    if fallback == "delivery": return delivery_time
    if fallback == "delivery_plus_one" and pd.notna(delivery_time):
        return delivery_time + pd.DateOffset(months=1)
    return explicit_value
>> *)
Definition resolve_payment_date (explicit_value start_time delivery_time : option date)
    (fb : fallback) : option date :=
  match explicit_value with
  | Some e => Some e
  | None =>
      match fb with
      | FStart => start_time
      | FDelivery => delivery_time
      | FDeliveryPlusOne =>
          match delivery_time with
          | Some d => Some (add_months d 1)
          | None => explicit_value
          end
      end
  end.

End PaymentDate.

(* ------------------------------------------------------------------ *)
(** ** Numeric helpers on rationals *)

Module QHelp.

(** [pd.notna] on an optional value. *)
Definition isSome {A : Type} (o : option A) : bool :=
  match o with Some _ => true | None => false end.

(** Python's [a < b] on floats. *)
Definition qlt (a b : Q) : bool := negb (Qle_bool b a).

(** [sum(...)] / [Series.sum()] over a list of floats. *)
Definition sum_q (l : list Q) : Q := fold_right Qplus 0%Q l.

End QHelp.

(* ------------------------------------------------------------------ *)
(** ** [CashFlowHelper]: per-project expansion and monthly summary *)

Module CashFlow.
Import Calendar PaymentDate QHelp.

(** A normalised project row, with the columns the engine reads:
    ["客户"], ["业务线"], ["record_id"], ["_final_amount"], the four stage
    ratio columns (percent, a missing value read as 0 by [_safe_float]),
    the four explicit stage date columns, ["开始时间"], ["交付时间"] and
    ["预计截止时间"]. *)
Record project := mkProject {
  customer : string;
  business_line : string;
  record_id : string;
  final_amount : Q;
  ratio_down : Q;       (* 首付款比例 *)
  ratio_second : Q;     (* 次付款比例 *)
  ratio_final : Q;      (* 尾款比例 *)
  ratio_retention : Q;  (* 质保金比例 *)
  time_down : option date;       (* 首付款时间 *)
  time_second : option date;     (* 次付款时间 *)
  time_final : option date;      (* 尾款时间 *)
  time_retention : option date;  (* 质保金时间 *)
  start_time : option date;      (* 开始时间 *)
  delivery_time : option date;   (* 交付时间 *)
  expected_time : option date    (* 预计截止时间 *)
}.

(** One row of the cash-flow DataFrame. *)
Record entry := mkEntry {
  cf_project : string;   (* 项目名称 *)
  cf_line : string;      (* 业务线 *)
  cf_type : string;      (* 现金流类型 *)
  cf_amount : Q;         (* 金额 *)
  cf_date : date;        (* 支付日期 *)
  cf_month : Z * Z;      (* 支付月份 *)
  cf_ratio : Q           (* 付款比例 *)
}.

Definition stage_config : Type :=
  (string * (project -> Q) * (project -> option date) * fallback)%type.

(** [stage_configs] of [calculate_single_project_cash_flow]. *)
Definition stage_configs : list stage_config :=
  [ ("首付款"%string, ratio_down, time_down, FStart);
    ("次付款"%string, ratio_second, time_second, FDelivery);
    ("尾款"%string, ratio_final, time_final, FDeliveryPlusOne);
    ("质保金"%string, ratio_retention, time_retention, FDeliveryPlusOne) ].

(** [CashFlowHelper._resolve_payment_date(project_row, time_col, fallback)]. *)
Definition stage_payment_date (p : project) (cfg : stage_config) : option date :=
  let '(_, _, time_col, fb) := cfg in
  resolve_payment_date (time_col p) (start_time p) (delivery_time p) fb.

(** The body of the loop over [stage_configs]:
<<
    ratio = CashFlowHelper._safe_float(project_row.get(ratio_col, 0))
    payment_date = CashFlowHelper._resolve_payment_date(project_row, time_col, fallback)
    if ratio > 0 and payment_date and pd.notna(payment_date):
        payment_amount = revenue * (ratio / 100)
        if payment_amount > 0:
            cash_flow_items.append({...})
>> *)
Definition stage_entries (p : project) (cfg : stage_config) : list entry :=
  let '(stage_name, ratio_col, time_col, fb) := cfg in
  let ratio := ratio_col p in
  let payment_date := stage_payment_date p cfg in
  if qlt 0 ratio then
    match payment_date with
    | Some d =>
        let payment_amount := (final_amount p * (ratio / 100))%Q in
        if qlt 0 payment_amount then
          [mkEntry (customer p) (business_line p) stage_name payment_amount
                   d (format_to_month d) ratio]
        else []
    | None => []
    end
  else [].

(** [CashFlowHelper.calculate_single_project_cash_flow] with
    [revenue_column="_final_amount"]. *)
Definition calculate_single_project_cash_flow (p : project) : list entry :=
  flat_map (stage_entries p) stage_configs.

(** [CashFlowHelper.calculate_dataframe_cash_flow]: projects whose revenue
    is 0 are skipped, the others are expanded and concatenated. *)
Definition calculate_dataframe_cash_flow (ps : list project) : list entry :=
  flat_map (fun p => if Qeq_bool (final_amount p) 0 then []
                     else calculate_single_project_cash_flow p) ps.

(** Equality and order of ["YYYY-MM"] strings. *)
Definition month_eqb (a b : Z * Z) : bool := (fst a =? fst b) && (snd a =? snd b).
Definition month_leb (a b : Z * Z) : bool :=
  (fst a <? fst b) || ((fst a =? fst b) && (snd a <=? snd b)).

Definition month_eq_dec (a b : Z * Z) : {a = b} + {a <> b}.
Proof. decide equality; apply Z.eq_dec. Defined.

Fixpoint insert_month (x : Z * Z) (l : list (Z * Z)) : list (Z * Z) :=
  match l with
  | [] => [x]
  | y :: r => if month_leb x y then x :: l else y :: insert_month x r
  end.

Fixpoint sort_months (l : list (Z * Z)) : list (Z * Z) :=
  match l with
  | [] => []
  | x :: r => insert_month x (sort_months r)
  end.

(** One row of the monthly summary: ["月份"], ["月度现金流"], ["项目数量"]. *)
Record month_row := mkMonthRow {
  ms_month : Z * Z;
  ms_total : Q;
  ms_count : nat
}.

Definition entries_in (k : Z * Z) (es : list entry) : list entry :=
  filter (fun e => month_eqb (cf_month e) k) es.

Definition month_total (k : Z * Z) (es : list entry) : Q :=
  sum_q (map cf_amount (entries_in k es)).

(** [CashFlowHelper.calculate_monthly_summary]: group by ["支付月份"]
    (groupby sorts its keys), sum ["金额"], count distinct ["项目名称"].
    The ["支付月份"] column is always filled on entries built by
    [calculate_single_project_cash_flow], so the re-derivation branch and
    [dropna] keep every row. *)
Definition calculate_monthly_summary (es : list entry) : list month_row :=
  match es with
  | [] => []
  | _ =>
      map (fun k => mkMonthRow k (month_total k es)
                      (length (nodup string_dec (map cf_project (entries_in k es)))))
          (sort_months (nodup month_eq_dec (map cf_month es)))
  end.

(** The ratio of a stage that gets placed on the calendar: positive and
    with a resolved payment date; 0 otherwise. *)
Definition dated_ratio (p : project) (cfg : stage_config) : Q :=
  let '(_, ratio_col, _, _) := cfg in
  if qlt 0 (ratio_col p) && isSome (stage_payment_date p cfg) then ratio_col p
  else 0%Q.

Definition cfg_ratio (p : project) (cfg : stage_config) : Q :=
  let '(_, ratio_col, _, _) := cfg in ratio_col p.

End CashFlow.

(* ------------------------------------------------------------------ *)
(** ** [CashFlowHelper.forecast_cash_flow] and [calculate_runway] *)

Module Forecast.
Import Calendar QHelp CashFlow.

(** One row of the forecast: ["月份"], ["预测现金流"], ["累计现金流"]. *)
Record fc_row := mkFcRow { fc_month : Z * Z; fc_amount : Q; fc_cum : Q }.

(** [for i in range(months_ahead): month = _add_months(current_month, i);
    future_months.append(month.strftime('%Y-%m'))]. *)
Definition future_months (current_month : date) (months_ahead : nat) : list (Z * Z) :=
  map (fun i => format_to_month (add_months current_month (Z.of_nat i)))
      (seq 0 months_ahead).

(** The left merge on ["月份"] followed by [fillna(0)]: the monthly summary
    has one row per month, so each future month meets at most one row. *)
Fixpoint lookup_month (k : Z * Z) (ms : list month_row) : option Q :=
  match ms with
  | [] => None
  | r :: t => if month_eqb (ms_month r) k then Some (ms_total r) else lookup_month k t
  end.

Definition merged_amount (monthly_cash : list month_row) (k : Z * Z) : Q :=
  match monthly_cash with
  | [] => 0%Q
  | _ => match lookup_month k monthly_cash with Some t => t | None => 0%Q end
  end.

(** The rows with the running [cumsum()] of ["预测现金流"]. *)
Fixpoint build_forecast (acc : Q) (f : Z * Z -> Q) (months : list (Z * Z))
    : list fc_row :=
  match months with
  | [] => []
  | m :: rest =>
      let a := f m in mkFcRow m a (acc + a)%Q :: build_forecast (acc + a)%Q f rest
  end.

(** [CashFlowHelper.forecast_cash_flow(cash_flow_df, months_ahead,
    fill_zero_months)]; [now] is [datetime.now()]. *)
Definition forecast_cash_flow (es : list entry) (months_ahead : nat)
    (fill_zero_months : bool) (now : date) : list fc_row :=
  match es with
  | [] => []
  | _ =>
      let current_month := mkDate (year now) (month now) 1 in
      let fm := future_months current_month months_ahead in
      let monthly_cash := calculate_monthly_summary es in
      let all_months := build_forecast 0 (merged_amount monthly_cash) fm in
      if fill_zero_months then all_months
      else filter (fun r => negb (Qeq_bool (fc_amount r) 0)) all_months
  end.

(** One row of the runway table: ["月份"], ["收入"], ["支出"], ["净现金流"],
    ["累计现金余额"]. *)
Record rw_row := mkRwRow {
  rw_month : Z * Z; rw_income : Q; rw_expense : Q; rw_net : Q; rw_balance : Q
}.

Record runway_result := mkRunway {
  runway_months : nat;
  min_cash_balance : Q;
  monthly_summary : list rw_row
}.

(** The balance loop: row 0 gets [initial_cash + net], row [i] gets the
    balance of row [i-1] plus its net flow. [prev] is the balance of the
    previous row, [initial_cash] before row 0. *)
Fixpoint build_balances (prev : Q) (monthly_expense : Q) (fc : list fc_row)
    : list rw_row :=
  match fc with
  | [] => []
  | r :: rest =>
      let net := (fc_amount r - monthly_expense)%Q in
      let bal := (prev + net)%Q in
      mkRwRow (fc_month r) (fc_amount r) monthly_expense net bal
        :: build_balances bal monthly_expense rest
  end.

(** [runway_months += 1] until the first row whose balance is [<= 0]. *)
Fixpoint count_runway (rows : list rw_row) : nat :=
  match rows with
  | [] => 0
  | r :: rest => if Qle_bool (rw_balance r) 0 then 0 else S (count_runway rest)
  end.

(** [monthly_summary["累计现金余额"].min()] on a non-empty table. *)
Definition min_balance (rows : list rw_row) (dflt : Q) : Q :=
  match rows with
  | [] => dflt
  | r :: rest => fold_left Qmin (map rw_balance rest) (rw_balance r)
  end.

(** [CashFlowHelper.calculate_runway]. *)
Definition calculate_runway (es : list entry) (initial_cash monthly_expense : Q)
    (months_ahead : nat) (now : date) : runway_result :=
  match es with
  | [] => mkRunway 0 initial_cash []
  | _ =>
      match forecast_cash_flow es months_ahead true now with
      | [] => mkRunway 0 initial_cash []
      | fc =>
          let tbl := build_balances initial_cash monthly_expense fc in
          mkRunway (count_runway tbl) (min_balance tbl initial_cash) tbl
      end
  end.

End Forecast.

(* ------------------------------------------------------------------ *)
(** ** [payment_templates] and [UnifiedCashFlowService] *)

Module Templates.
Import Calendar QHelp CashFlow.
Local Open Scope string_scope.

(** A template stage [{"name", "ratio", "offset_months", "base"}]. *)
Record tstage := mkTStage {
  ts_name : string; ts_ratio : Q; ts_offset : Z; ts_base : string
}.

Definition START := "开始时间".
Definition DELIVERY := "交付时间".

(** [PAYMENT_TEMPLATES]. *)
Definition PAYMENT_TEMPLATES : list (string * list tstage) :=
  [ ("标准三笔(5-4-1)",
      [mkTStage "首付款" (5#10) (-1) START; mkTStage "到货验收款" (4#10) 0 DELIVERY;
       mkTStage "质保金" (1#10) 12 DELIVERY]);
    ("标准三笔(3-6-1)",
      [mkTStage "首付款" (3#10) (-1) START; mkTStage "到货验收款" (6#10) 0 DELIVERY;
       mkTStage "质保金" (1#10) 12 DELIVERY]);
    ("四笔分期(3-3-3-1)",
      [mkTStage "首付款" (3#10) 0 START; mkTStage "到货款" (3#10) 0 DELIVERY;
       mkTStage "验收款" (3#10) 1 DELIVERY; mkTStage "质保金" (1#10) 12 DELIVERY]);
    ("四笔分期(2-3-4-1)",
      [mkTStage "预付款" (2#10) 0 START; mkTStage "发货款" (3#10) (-1) DELIVERY;
       mkTStage "验收款" (4#10) 0 DELIVERY; mkTStage "质保金" (1#10) 12 DELIVERY]);
    ("五笔分期(2-2-3-2-1)",
      [mkTStage "预付款" (2#10) 0 START; mkTStage "发货款" (2#10) (-1) DELIVERY;
       mkTStage "到货款" (3#10) 0 DELIVERY; mkTStage "验收款" (2#10) 1 DELIVERY;
       mkTStage "质保金" (1#10) 12 DELIVERY]);
    ("设备租赁(等额分期)",
      [mkTStage "首付款" (2#10) 0 START; mkTStage "季付1" (2#10) 3 START;
       mkTStage "季付2" (2#10) 6 START; mkTStage "季付3" (2#10) 9 START;
       mkTStage "尾款" (2#10) 12 START]);
    ("全款", [mkTStage "全款" 1 0 START]);
    ("货到付款", [mkTStage "全款" 1 0 DELIVERY]) ].

(** [DEFAULT_TEMPLATE_BY_BUSINESS] and [DEFAULT_TEMPLATE]. *)
Definition DEFAULT_TEMPLATE_BY_BUSINESS : list (string * string) :=
  [ ("光谱设备/服务", "标准三笔(5-4-1)");
    ("配液设备", "标准三笔(5-4-1)");
    ("自动化项目", "四笔分期(3-3-3-1)") ].

Definition DEFAULT_TEMPLATE := "标准三笔(5-4-1)".

(** [dict.get(key)] on a dict literal. *)
Fixpoint dict_get {A : Type} (k : string) (d : list (string * A)) : option A :=
  match d with
  | [] => None
  | (k', v) :: rest => if String.eqb k' k then Some v else dict_get k rest
  end.

(** [get_template]: [PAYMENT_TEMPLATES.get(name, PAYMENT_TEMPLATES[DEFAULT_TEMPLATE])]. *)
Definition get_template (template_name : string) : list tstage :=
  match dict_get template_name PAYMENT_TEMPLATES with
  | Some t => t
  | None => match dict_get DEFAULT_TEMPLATE PAYMENT_TEMPLATES with
            | Some t => t
            | None => []
            end
  end.

(** [get_default_template_for_business]. *)
Definition get_default_template_for_business (business_line : string) : string :=
  match dict_get business_line DEFAULT_TEMPLATE_BY_BUSINESS with
  | Some n => n
  | None => DEFAULT_TEMPLATE
  end.

(** A stage handed to [validate_template]: [stage.get("name")] ([None] when
    absent) and [stage.get("ratio", 0)]. *)
Record vstage := mkVStage { v_name : option string; v_ratio : Q }.

(** [not stage.get("name")]: a missing name or the empty string. *)
Definition name_missing (n : option string) : bool :=
  match n with None => true | Some s => String.eqb s "" end.

(** The [(is_valid, error_message)] pair; the message is kept symbolic. *)
Inductive vmsg :=
  | NoMessage
  | EmptyStages
  | BadRatioSum (total : Q)
  | MissingName (i : nat)
  | NonPositiveRatio (i : nat).

Fixpoint check_stages (i : nat) (stages : list vstage) : bool * vmsg :=
  match stages with
  | [] => (true, NoMessage)
  | st :: rest =>
      if name_missing (v_name st) then (false, MissingName i)
      else if Qle_bool (v_ratio st) 0 then (false, NonPositiveRatio i)
      else check_stages (S i) rest
  end.

(** [validate_template]. *)
Definition validate_template (stages : list vstage) : bool * vmsg :=
  match stages with
  | [] => (false, EmptyStages)
  | _ =>
      let total_ratio := sum_q (map v_ratio stages) in
      if qlt (1#100) (Qabs (total_ratio - 1)) then (false, BadRatioSum total_ratio)
      else check_stages 1 stages
  end.

(** A dated stage [{"name", "ratio", "date"}], as stored in the schedule
    table and as built by [apply_template_with_dates]. *)
Record dstage := mkDStage { ds_name : string; ds_ratio : Q; ds_date : option date }.

(** [UnifiedCashFlowService.apply_template_with_dates]. *)
Definition apply_template_with_dates (template_stages : list tstage)
    (start_date delivery_date : option date) : list dstage :=
  map (fun st =>
         let base_date := if String.eqb (ts_base st) START then start_date
                          else delivery_date in
         mkDStage (ts_name st) (ts_ratio st)
           (option_map (fun d => add_months d (ts_offset st)) base_date))
      template_stages.

(** A row of the payment-schedule table; [ps_payment_stages] is the
    decoded JSON blob, [[]] when the blob is empty or not valid JSON
    ([json.loads] failing is caught and gives [[]]). *)
Record sched_row := mkSchedRow {
  ps_record_id : string; ps_template_name : string; ps_payment_stages : list dstage
}.

(** [get_project_payment_stages]: the first row with that record id. *)
Definition get_project_payment_stages (table : list sched_row) (rid : string)
    : string * list dstage :=
  match find (fun r => String.eqb (ps_record_id r) rid) table with
  | Some r => (ps_template_name r, ps_payment_stages r)
  | None => ("", [])
  end.

(** Lines 190-206 of [calculate_project_cash_flow]: the stages used for a
    project. [delivery_date] is [project_row.get("交付时间") or
    project_row.get("预计截止时间")] on a row of the frame built by the
    loader, whose date columns hold a [Timestamp] or [NaT]
    ([_parse_maybe_timestamp] turns a missing or unreadable date into
    [NaT]).  Both are truthy, so [or] always yields the ["交付时间"] cell
    and ["预计截止时间"] is never read; [None] stands for [NaT], which
    [apply_template_with_dates] treats as no date. *)
Definition project_stages (table : list sched_row) (p : project) : list dstage :=
  let '(_, saved_stages) := get_project_payment_stages table (record_id p) in
  let start_date := start_time p in
  let delivery_date := delivery_time p in
  match saved_stages with
  | _ :: _ => saved_stages
  | [] =>
      let default_template_name := get_default_template_for_business (business_line p) in
      let template_def := get_template default_template_name in
      apply_template_with_dates template_def start_date delivery_date
  end.

(** An entry of [calculate_project_cash_flow]; the month is [None] for the
    empty string. *)
Record uentry := mkUEntry {
  u_project : string; u_line : string; u_type : string; u_amount : Q;
  u_date : option date; u_month : option (Z * Z); u_record_id : string
}.

(** [UnifiedCashFlowService.calculate_project_cash_flow]. *)
Definition calculate_project_cash_flow (table : list sched_row) (p : project)
    : list uentry :=
  let revenue := final_amount p in
  if Qle_bool revenue 0 then []
  else
    let saved_stages := snd (get_project_payment_stages table (record_id p)) in
    flat_map (fun st =>
        let ratio := ds_ratio st in
        if Qle_bool ratio 0 then []
        else
          match ds_date st, saved_stages with
          | None, [] => []
          | pay_date, _ =>
              [mkUEntry (customer p) (business_line p) (ds_name st) (revenue * ratio)
                 pay_date (option_map format_to_month pay_date) (record_id p)]
          end)
      (project_stages table p).

End Templates.

(* ------------------------------------------------------------------ *)
(** ** [DataManager._parse_rate_percent] and the predicted amount *)

Module RateParse.
Import QHelp.
Local Open Scope string_scope.
Local Open Scope char_scope.

(** Whitespace removed by [str.strip()], restricted to ASCII code points
    (tab, line feed, vertical tab, form feed, carriage return, the four
    separators 0x1c-0x1f, space). *)
Definition is_space (c : ascii) : bool :=
  let n := nat_of_ascii c in
  Nat.eqb n 32 || (Nat.leb 9 n && Nat.leb n 13) || (Nat.leb 28 n && Nat.leb n 31).

Fixpoint lstrip (s : string) : string :=
  match s with
  | EmptyString => EmptyString
  | String c r => if is_space c then lstrip r else s
  end.

Fixpoint rstrip (s : string) : string :=
  match s with
  | EmptyString => EmptyString
  | String c r =>
      let r' := rstrip r in
      if is_space c && String.eqb r' EmptyString then EmptyString else String c r'
  end.

(** [str.strip()]. *)
Definition strip (s : string) : string := rstrip (lstrip s).

Definition is_upper (c : ascii) : bool :=
  let n := nat_of_ascii c in Nat.leb 65 n && Nat.leb n 90.

(** [str.lower()] on ASCII letters. *)
Fixpoint lower (s : string) : string :=
  match s with
  | EmptyString => EmptyString
  | String c r =>
      String (if is_upper c then ascii_of_nat (nat_of_ascii c + 32) else c) (lower r)
  end.

(** [s.replace(c, "")]. *)
Fixpoint remove_char (x : ascii) (s : string) : string :=
  match s with
  | EmptyString => EmptyString
  | String c r => if Ascii.eqb c x then remove_char x r else String c (remove_char x r)
  end.

(** [x in s]. *)
Fixpoint has_char (x : ascii) (s : string) : bool :=
  match s with
  | EmptyString => false
  | String c r => Ascii.eqb c x || has_char x r
  end.

(** [s.split(x)]: never empty, [""] for the empty string. *)
Fixpoint split_on (x : ascii) (s : string) : list string :=
  match s with
  | EmptyString => [EmptyString]
  | String c r =>
      let parts := split_on x r in
      if Ascii.eqb c x then EmptyString :: parts
      else match parts with
           | [] => [String c EmptyString]
           | p :: ps => String c p :: ps
           end
  end.

Definition is_digit (c : ascii) : bool :=
  let n := nat_of_ascii c in Nat.leb 48 n && Nat.leb n 57.

(** Reads a run of decimal digits: its value, the number of digits read
    (counted from [n]) and the rest of the string. *)
Fixpoint int_part (s : string) (acc : Z) (n : nat) : Z * nat * string :=
  match s with
  | String c r =>
      if is_digit c
      then int_part r (acc * 10 + Z.of_nat (nat_of_ascii c - 48))%Z (S n)
      else (acc, n, s)
  | EmptyString => (acc, n, s)
  end.

(** An unsigned decimal [ddd], [ddd.], [.ddd] or [ddd.ddd], at least one
    digit. *)
Definition unsigned_decimal (s : string) : option Q :=
  let '(i, ni, rest) := int_part s 0%Z 0 in
  match rest with
  | EmptyString => if Nat.eqb ni 0 then None else Some (inject_Z i)
  | String "." r =>
      let '(f, nf, rest2) := int_part r 0%Z 0 in
      match rest2 with
      | EmptyString =>
          if Nat.eqb (ni + nf) 0 then None
          else Some (inject_Z (i * 10 ^ Z.of_nat nf + f) / inject_Z (10 ^ Z.of_nat nf))%Q
      | _ => None
      end
  | _ => None
  end.

(** What [pd.to_numeric] reads from a string: a number, or an infinity
    ([Inf true] is [-inf]). *)
Inductive num :=
  | Fin (q : Q)
  | Inf (neg : bool).

(** Splits at the first ["e"] or ["E"]: the mantissa and, when there is
    one, the exponent text. *)
Fixpoint split_exp (s : string) : string * option string :=
  match s with
  | EmptyString => (EmptyString, None)
  | String c r =>
      if Ascii.eqb c "e" || Ascii.eqb c "E" then (EmptyString, Some r)
      else let '(m, e) := split_exp r in (String c m, e)
  end.

(** The exponent after ["e"]: an optional sign and 1 to 17 digits (the
    parser reads at most 17 exponent digits; a longer run leaves digits
    unread, which fails). *)
Definition exponent_value (s : string) : option Z :=
  let '(neg, digits) := match s with
                        | String "-" r => (true, r)
                        | String "+" r => (false, r)
                        | _ => (false, s)
                        end in
  let '(n, nd, rest) := int_part digits 0%Z 0 in
  match rest with
  | EmptyString =>
      if Nat.eqb nd 0 || Nat.ltb 17 nd then None
      else Some (if neg then (- n)%Z else n)
  | _ => None
  end.

Definition scale10 (q : Q) (k : Z) : Q :=
  if Z.leb 0 k then (q * inject_Z (10 ^ k))%Q else (q / inject_Z (10 ^ (- k)))%Q.

(** An unsigned decimal, optionally followed by an exponent. *)
Definition unsigned_number (s : string) : option Q :=
  let '(m, e) := split_exp s in
  match e with
  | None => unsigned_decimal m
  | Some es =>
      match unsigned_decimal m, exponent_value es with
      | Some q, Some k => Some (scale10 q k)
      | _, _ => None
      end
  end.

(** The words [floatify] accepts after a failed number parse, compared
    without case: ["inf"], ["infinity"], with an optional sign. *)
Definition inf_word (s : string) : option num :=
  let l := lower s in
  if String.eqb l "inf" || String.eqb l "+inf" || String.eqb l "infinity"
     || String.eqb l "+infinity"
  then Some (Inf false)
  else if String.eqb l "-inf" || String.eqb l "-infinity" then Some (Inf true)
  else None.

(** [pd.to_numeric(s, errors="coerce")] on a stripped string, [None] for
    NaN.  pandas parses the string with [precise_xstrtod]: an optional
    sign, digits with at most one decimal point and at least one digit, an
    optional exponent, and nothing left over; failing that, the infinity
    words.  Anything else (["nan"] included) is NaN under [errors="coerce"].
    Numbers are exact rationals here: the rounding to a double and the
    overflow of magnitudes beyond the double range (NaN in pandas) are not
    modelled. *)
Definition to_numeric (s : string) : option num :=
  let finite := match s with
                | String "-" r => option_map Qopp (unsigned_number r)
                | String "+" r => unsigned_number r
                | _ => unsigned_number s
                end in
  match finite with
  | Some q => Some (Fin q)
  | None => inf_word s
  end.

(** [float(a + b) / 2.0] for two non-NaN values; [inf + -inf] is NaN. *)
Definition num_mid (a b : num) : option num :=
  match a, b with
  | Fin x, Fin y => Some (Fin ((x + y) / 2)%Q)
  | Fin _, Inf n => Some (Inf n)
  | Inf n, Fin _ => Some (Inf n)
  | Inf n, Inf m => if Bool.eqb n m then Some (Inf n) else None
  end.

Definition nonempty (s : string) : bool := negb (String.eqb s EmptyString).

(** The inner [_one] of [_parse_rate_percent], applied to the stripped
    [str] of a cell; [None] is [pd.NA] or NaN. *)
Definition parse_rate_one (value : string) : option num :=
  if String.eqb value "" || String.eqb (lower value) "nan"
     || String.eqb (lower value) "none"
  then None
  else
    let clean := strip (remove_char "%" value) in
    let fallback := to_numeric clean in
    if has_char "-" clean then
      match filter nonempty (map strip (split_on "-" clean)) with
      | a :: b :: _ =>
          match to_numeric a, to_numeric b with
          | Some x, Some y => num_mid x y
          | _, _ => fallback
          end
      | _ => fallback
      end
    else fallback.

(** [parsed.where(parsed.isna() | ((parsed >= 0) & (parsed <= 100)))]:
    an infinity fails one of the two comparisons. *)
Definition in_percent_range (q : Q) : bool := Qle_bool 0 q && Qle_bool q 100%Q.

Definition keep_in_range (r : option num) : option Q :=
  match r with
  | Some (Fin q) => if in_percent_range q then Some q else None
  | Some (Inf _) => None
  | None => None
  end.

(** [_parse_rate_percent] on one cell. *)
Definition parse_rate_cell (cell : string) : option Q :=
  keep_in_range (parse_rate_one (strip cell)).

(** [_parse_rate_percent] on a column: element-wise. *)
Definition parse_rate_percent (series : list string) : list (option Q) :=
  map parse_rate_cell series.

(** [pd.to_numeric(_成单率_num).fillna(0.0)]. *)
Definition rate_for_calc (r : option Q) : Q :=
  match r with Some q => q | None => 0%Q end.

(** [_金额_num * (rate_for_calc / 100.0) * decay_factor]. *)
Definition system_pred_amount (amount : Q) (rate : option Q) (decay : Q) : Q :=
  (amount * (rate_for_calc rate / 100) * decay)%Q.


(** Character classes used to describe inputs: every character of [s]
    satisfies [p]; digits and the decimal point; those plus ['%'] and
    ['-']. *)
Fixpoint all_chars (p : ascii -> bool) (s : string) : bool :=
  match s with
  | EmptyString => true
  | String c r => p c && all_chars p r
  end.

Definition plain_char (c : ascii) : bool := is_digit c || Ascii.eqb c ".".

Definition rate_char (c : ascii) : bool :=
  plain_char c || Ascii.eqb c "%" || Ascii.eqb c "-".

Definition no_digit_char (c : ascii) : bool := negb (is_digit c).

End RateParse.

(* ------------------------------------------------------------------ *)
(** ** [DataManager._standardize_data]: amount, overrides, final amount *)

Module Standardize.
Import QHelp RateParse.
Local Open Scope string_scope.

(** [re.sub(r"[^0-9\.\-]", "", s)]. *)
Fixpoint keep_number_chars (s : string) : string :=
  match s with
  | EmptyString => EmptyString
  | String c r =>
      if is_digit c || Ascii.eqb c "." || Ascii.eqb c "-"
      then String c (keep_number_chars r) else keep_number_chars r
  end.

(** [_parse_amount_wan] on one cell ([None] is a NaN cell).  After the
    filter only digits, points and dashes are left, and [float] of such a
    string is the number [to_numeric] reads from it (no exponent and no
    infinity word can be spelt with these characters); every failure reads
    as [0.0].  Removing
    ["¥"] and [","] is subsumed by the filter. *)
Definition parse_amount_wan (x : option string) : Q :=
  match x with
  | None => 0%Q
  | Some x =>
      if String.eqb x "" then 0%Q
      else
        let s := keep_number_chars (strip x) in
        if String.eqb s "" || String.eqb s "-" || String.eqb s "." || String.eqb s "-."
        then 0%Q
        else match to_numeric s with Some (Fin q) => q | _ => 0%Q end
  end.

(** A row of the Overrides table as returned by [fetch_overrides]: the
    amount is a number (rows without one are skipped there); [updated_at]
    after [pd.to_datetime(errors="coerce")] is a timestamp in seconds, or
    [None] for NaT. *)
Record override := mkOverride {
  ov_record_id : string;
  override_amount : Q;
  updated_at : option Z
}.

(** The order of [sort_values("updated_at")]: ascending, NaT last. *)
Definition ts_le (a b : option Z) : bool :=
  match a, b with
  | _, None => true
  | None, Some _ => false
  | Some x, Some y => Z.leb x y
  end.

Definition ov_le (a b : override) : Prop := ts_le (updated_at a) (updated_at b) = true.

(** One sort by [updated_at] (insertion sort).  [sort_values] uses an
    unstable quicksort, so among equal timestamps its order may differ; the
    properties below hold for every sorted permutation. *)
Fixpoint insert_override (o : override) (l : list override) : list override :=
  match l with
  | [] => [o]
  | o' :: rest =>
      if ts_le (updated_at o) (updated_at o') then o :: l
      else o' :: insert_override o rest
  end.

Fixpoint sort_overrides (l : list override) : list override :=
  match l with
  | [] => []
  | o :: rest => insert_override o (sort_overrides rest)
  end.

(** [groupby("record_id").last()] followed by the left merge on
    [record_id]: the amount of the last row of the sorted table carrying
    the project's record id. *)
Fixpoint latest_override_amount (rid : string) (sorted : list override) : option Q :=
  match sorted with
  | [] => None
  | o :: rest =>
      match latest_override_amount rid rest with
      | Some a => Some a
      | None => if String.eqb (ov_record_id o) rid then Some (override_amount o) else None
      end
  end.

(** [np.round(x, 2)]: [rint(x * 100) / 100], [rint] rounding half to
    even. *)
Definition round_half_even (q : Q) : Z :=
  let f := Qfloor q in
  let r := (q - inject_Z f)%Q in
  if Qle_bool (1 # 2) r then
    if Qeq_bool r (1 # 2) then (if Z.even f then f else f + 1) else f + 1
  else f.

Definition round2 (q : Q) : Q := (inject_Z (round_half_even (q * 100)) / 100)%Q.

(** A row of the project table, with the cells [_standardize_data] reads:
    [record_id], [金额], [成单率] and the decay factor computed for it. *)
Record prow := mkPRow {
  pr_record_id : string;
  pr_amount : option string;
  pr_rate : string;
  pr_decay : Q
}.

(** [_system_pred_amount] of a row. *)
Definition row_pred_amount (r : prow) : Q :=
  system_pred_amount (parse_amount_wan (pr_amount r)) (parse_rate_cell (pr_rate r)) (pr_decay r).

(** [_final_amount] of a row, after the round to 2 decimals: the manual
    amount where the merge found one, else the prediction; [fillna(0.0)]
    has nothing left to fill. *)
Definition final_amount_of (sorted_overrides : list override) (r : prow) : Q :=
  round2 (match latest_override_amount (pr_record_id r) sorted_overrides with
          | Some manual => manual
          | None => row_pred_amount r
          end).

(** The whole column, with the Overrides table sorted by [sort_overrides]. *)
Definition final_amount_column (overrides : list override) (rows : list prow) : list Q :=
  map (final_amount_of (sort_overrides overrides)) rows.

End Standardize.

(* ------------------------------------------------------------------ *)
(** ** [DataManager._compute_time_decay_factor] *)

Module Decay.
Import QHelp.

(** The three date columns, in the order the code tries them:
    ["预计截止时间"], ["交付时间"], ["开始时间"]. *)
Inductive date_col := Expected | Delivery | Start.

Definition date_col_eqb (a b : date_col) : bool :=
  match a, b with
  | Expected, Expected | Delivery, Delivery | Start, Start => true
  | _, _ => false
  end.

(** A row's three cells after [pd.to_datetime(errors="coerce")]: a
    timestamp in seconds, or [None] for NaT. *)
Record drow := mkDRow {
  expected_ts : option Z;
  delivery_ts : option Z;
  start_ts : option Z
}.

Definition cell (c : date_col) (r : drow) : option Z :=
  match c with
  | Expected => expected_ts r
  | Delivery => delivery_ts r
  | Start => start_ts r
  end.

(** A DataFrame: the date columns it has ([df.columns]) and its rows. *)
Record dtable := mkDTable { columns : list date_col; rows : list drow }.

(** [col in df.columns and pd.to_datetime(df[col]).notna().any()]. *)
Definition usable (t : dtable) (c : date_col) : bool :=
  existsb (date_col_eqb c) (columns t) && existsb (fun r => isSome (cell c r)) (rows t).

(** The loop [for col in [...]: ... break]: the first usable column, for
    the whole frame. *)
Fixpoint pick_column (t : dtable) (order : list date_col) : option date_col :=
  match order with
  | [] => None
  | c :: rest => if usable t c then Some c else pick_column t rest
  end.

Definition date_col_order : list date_col := [Expected; Delivery; Start].

(** [(date - base_dt).dt.days]: whole days, rounded toward minus
    infinity. *)
Definition delta_days (ts base : Z) : Z := (ts - base) / 86400.

(** [(delta_days / 30.0).clip(lower=0).fillna(0.0)] for one row. *)
Definition delta_months (base : Z) (v : option Z) : Q :=
  match v with
  | Some ts => Qmax 0 (inject_Z (delta_days ts base) / 30)
  | None => 0
  end.

(** [_compute_time_decay_factor] with [decay_lambda] and [base_dt] (as a
    timestamp in seconds) read from the configuration. *)
Definition compute_time_decay_factor (decay_lambda : Q) (base_dt : Z) (t : dtable) : list R :=
  match rows t with
  | [] => []
  | _ =>
      if Qle_bool decay_lambda 0 then map (fun _ => 1%R) (rows t)
      else match pick_column t date_col_order with
           | None => map (fun _ => 1%R) (rows t)
           | Some c =>
               map (fun r => exp (Q2R (- decay_lambda * delta_months base_dt (cell c r)))) (rows t)
           end
  end.

(** The milestone date of the specification: a row's first non-null date
    among the three columns present. *)
Definition row_milestone (t : dtable) (r : drow) : option Z :=
  let get c := if existsb (date_col_eqb c) (columns t) then cell c r else None in
  match get Expected with
  | Some d => Some d
  | None => match get Delivery with Some d => Some d | None => get Start end
  end.

(** The factor of the specification, from [row_milestone]. *)
Definition spec_decay_factor (decay_lambda : Q) (base_dt : Z) (t : dtable) (r : drow) : R :=
  if Qle_bool decay_lambda 0 then 1%R
  else match row_milestone t r with
       | None => 1%R
       | Some d => exp (Q2R (- decay_lambda * Qmax 0 (inject_Z (delta_days d base_dt) / 30)))
       end.

End Decay.

(* ------------------------------------------------------------------ *)
(** ** [CashFlowHelper]: summaries by business line and stage, merge back
    into the project table, payment schedule of a project *)

Module Summaries.
Import Calendar PaymentDate QHelp CashFlow.
Local Open Scope string_scope.

(** The sorted keys of a [groupby] on a string column: Python orders
    strings by code point, which is the byte order of their UTF-8
    encoding, [String.compare]. *)
Fixpoint insert_key (k : string) (l : list string) : list string :=
  match l with
  | [] => [k]
  | x :: r => if String.leb k x then k :: l else x :: insert_key k r
  end.

Fixpoint sort_keys (l : list string) : list string :=
  match l with
  | [] => []
  | k :: r => insert_key k (sort_keys r)
  end.

(** One row of [groupby(col).agg({"金额": "sum", "项目名称": "nunique"})]. *)
Record group_row := mkGroupRow { g_key : string; g_total : Q; g_count : nat }.

Definition group_members (key : entry -> string) (k : string) (es : list entry) : list entry :=
  filter (fun e => String.eqb (key e) k) es.

Definition group_sum (key : entry -> string) (es : list entry) : list group_row :=
  map (fun k =>
         let g := group_members key k es in
         mkGroupRow k (sum_q (map cf_amount g)) (length (nodup string_dec (map cf_project g))))
      (sort_keys (nodup string_dec (map key es))).

(** [sort_values("现金流", ascending=False)] (an insertion sort; the
    quicksort of pandas may order equal totals differently). *)
Fixpoint insert_desc (r : group_row) (l : list group_row) : list group_row :=
  match l with
  | [] => [r]
  | x :: rest => if Qle_bool (g_total x) (g_total r) then r :: l else x :: insert_desc r rest
  end.

Fixpoint sort_desc (l : list group_row) : list group_row :=
  match l with
  | [] => []
  | r :: rest => insert_desc r (sort_desc rest)
  end.

(** [CashFlowHelper.calculate_business_line_summary]: rows
    ["业务线"], ["现金流"], ["项目数量"]. *)
Definition calculate_business_line_summary (es : list entry) : list group_row :=
  match es with
  | [] => []
  | _ => sort_desc (group_sum cf_line es)
  end.

(** [CashFlowHelper.calculate_stage_summary]: rows ["付款阶段"], ["金额"],
    ["项目数量"], in the key order of [groupby]. *)
Definition calculate_stage_summary (es : list entry) : list group_row :=
  match es with
  | [] => []
  | _ => group_sum cf_type es
  end.

(** The stages of [merge_with_original_df]. *)
Definition merge_stages : list string := ["首付款"; "次付款"; "尾款"; "质保金"].

(** [stage_summary.get((row.get("客户", ""), row.get("业务线", "")), 0)]:
    the amount of the group of that customer and business line, 0 when
    there is none. *)
Definition stage_income (stage_cash : list entry) (p : project) : Q :=
  sum_q (map cf_amount
           (filter (fun e => String.eqb (cf_project e) (customer p)
                             && String.eqb (cf_line e) (business_line p)) stage_cash)).

(** [CashFlowHelper.merge_with_original_df]: the columns it adds to the
    project table, each as its name and its values row by row; a stage
    without cash-flow rows adds no column. *)
Definition merge_with_original_df (original_df : list project) (cash_flow_df : list entry)
    (stage_income_suffix : string) : list (string * list Q) :=
  match original_df, cash_flow_df with
  | [], _ | _, [] => []
  | _, _ =>
      flat_map (fun stage_name =>
          let stage_cash := filter (fun e => String.eqb (cf_type e) stage_name) cash_flow_df in
          match stage_cash with
          | [] => []
          | _ => [(stage_name ++ stage_income_suffix, map (stage_income stage_cash) original_df)]
          end)
        merge_stages
  end.

(** A row of [get_project_payment_schedule]: ["客户"], ["业务线"],
    ["付款阶段"], ["付款比例"], ["付款金额"], ["付款时间"], ["预期收入"]
    (the copied ["合同金额"] cell is not carried). *)
Record pay_row := mkPayRow {
  pay_customer : string; pay_line : string; pay_stage : string; pay_ratio : Q;
  pay_amount : Q; pay_date : option date; pay_revenue : Q
}.

(** The loop of [get_project_payment_schedule], before sorting. *)
Definition schedule_rows (p : project) : list pay_row :=
  let revenue := final_amount p in
  flat_map (fun cfg =>
      let '(stage, ratio_col, _, _) := cfg in
      let ratio := ratio_col p in
      let payment_date := stage_payment_date p cfg in
      if qlt 0 ratio
      then [mkPayRow (customer p) (business_line p) stage ratio
              (revenue * (ratio / 100))%Q payment_date revenue]
      else [])
    stage_configs.

Definition date_leb (a b : date) : bool :=
  Z.ltb (year a) (year b)
  || (Z.eqb (year a) (year b)
      && (Z.ltb (month a) (month b) || (Z.eqb (month a) (month b) && Z.leb (day a) (day b)))).

(** [sort_values("付款时间", na_position='last')]. *)
Definition pay_date_le (a b : option date) : bool :=
  match a, b with
  | _, None => true
  | None, Some _ => false
  | Some x, Some y => date_leb x y
  end.

Fixpoint insert_pay (r : pay_row) (l : list pay_row) : list pay_row :=
  match l with
  | [] => [r]
  | x :: rest => if pay_date_le (pay_date r) (pay_date x) then r :: l else x :: insert_pay r rest
  end.

Fixpoint sort_pay (l : list pay_row) : list pay_row :=
  match l with
  | [] => []
  | r :: rest => insert_pay r (sort_pay rest)
  end.

(** [CashFlowHelper.get_project_payment_schedule]. *)
Definition get_project_payment_schedule (p : project) : list pay_row :=
  sort_pay (schedule_rows p).

End Summaries.

(* ------------------------------------------------------------------ *)
(** ** [UnifiedCashFlowService.calculate_all_cash_flows] and
    [get_monthly_income_summary] *)

Module Income.
Import Calendar QHelp CashFlow Templates Summaries.

(** [calculate_all_cash_flows]: the entries of every project, in order. *)
Definition calculate_all_cash_flows (table : list sched_row) (df : list project) : list uentry :=
  flat_map (calculate_project_cash_flow table) df.

(** [while current <= end: months.append(current.strftime('%Y-%m'));
    current = current + relativedelta(months=1)], on first days of month.
    The loop makes [month_index end - month_index start + 1] turns; [fuel]
    only bounds the recursion. *)
Fixpoint month_loop (fuel : nat) (current end_ : date) : list (Z * Z) :=
  match fuel with
  | O => []
  | S f =>
      if date_leb current end_
      then format_to_month current :: month_loop f (add_months current 1) end_
      else []
  end.

Definition first_of_month (d : date) : date := mkDate (year d) (month d) 1.

Definition month_span (start_date end_date : date) : nat :=
  S (Z.to_nat (month_index (format_to_month end_date)
               - month_index (format_to_month start_date) + 1)).

(** [groupby("支付月份")["金额"].sum()] looked up by the left merge, then
    [fillna(0)]: the amounts of the entries of month [m]. *)
Definition month_income (cf : list uentry) (m : Z * Z) : Q :=
  sum_q (map u_amount (filter (fun e => match u_month e with
                                        | Some k => month_eqb k m
                                        | None => false
                                        end) cf)).

(** [get_monthly_income_summary]: rows ["月份"], ["收入"]. *)
Definition get_monthly_income_summary (table : list sched_row) (df : list project)
    (start_date end_date : date) : list ((Z * Z) * Q) :=
  let cash_flow_df := calculate_all_cash_flows table df in
  match cash_flow_df with
  | [] => []
  | _ =>
      let months := month_loop (month_span start_date end_date)
                      (first_of_month start_date) (first_of_month end_date) in
      map (fun m => (m, month_income cash_flow_df m)) months
  end.

End Income.

(* ------------------------------------------------------------------ *)
(** ** Concrete inputs *)

Module Samples.
Import Calendar CashFlow Templates.

(** A project of final amount 100 with stage ratios 50/40/0/10 percent,
    no explicit stage dates, no start date and a delivery date. *)
Definition undated_start_project : project :=
  mkProject "客户A" "自动化项目" "rec1" 100 50 40 0 10
    None None None None None (Some (mkDate 2024 6 15)) None.

(** The same project with a start date: every stage is dated. *)
Definition dated_project : project :=
  mkProject "客户A" "自动化项目" "rec1" 100 50 40 0 10
    None None None None (Some (mkDate 2024 1 10)) (Some (mkDate 2024 6 15)) None.

(** Its cash-flow entries: 40 in 2024-06 and 10 in 2024-07. *)
Definition sample_entries : list entry :=
  calculate_single_project_cash_flow undated_start_project.


(** A project row whose amount cell reads ["-100"] (万元), win probability
    ["50"], no time discount. *)
Definition negative_amount_row : Standardize.prow :=
  Standardize.mkPRow "rec1" (Some "-100"%string) "50" 1.

(** Overrides for ["rec1"], the undated one counting as the latest. *)
Definition sample_overrides : list Standardize.override :=
  [Standardize.mkOverride "rec1"%string 10 (Some 1700000000%Z);
   Standardize.mkOverride "rec1"%string 20 None;
   Standardize.mkOverride "rec2"%string 30 (Some 1700000500%Z);
   Standardize.mkOverride "rec1"%string 40 (Some 1700000900%Z)].

(** Two projects: the first has only an expected-completion date 30 days
    after the reference instant, the second only a delivery date 60 days
    after it. *)
Definition decay_base : Z := 1700000000.

Definition late_delivery_row : Decay.drow :=
  Decay.mkDRow None (Some (decay_base + 60 * 86400)%Z) None.

Definition two_dated_rows : Decay.dtable :=
  Decay.mkDTable [Decay.Expected; Decay.Delivery; Decay.Start]
    [Decay.mkDRow (Some (decay_base + 30 * 86400)%Z) None None; late_delivery_row].

End Samples.

(* ================================================================== *)
(** * Properties *)

Import Calendar PaymentDate QHelp CashFlow Forecast Templates RateParse Standardize Decay
  Summaries Income.

Example add_months_jan31_leap :
  add_months (mkDate 2024 1 31) 1 = mkDate 2024 2 29.
Proof. reflexivity. Qed.

Lemma add_months_index (d : date) (k : Z) :
  month_index (format_to_month (add_months d k)) = month_index (format_to_month d) + k
  /\ 1 <= month (add_months d k) <= 12.
Proof.
  destruct d as [y m dd]; unfold add_months, month_index, format_to_month; simpl.
  pose proof (Z.div_mod (m - 1 + k) 12 ltac:(lia)) as Hdm.
  pose proof (Z.mod_pos_bound (m - 1 + k) 12 ltac:(lia)) as Hb.
  split; lia.
Qed.

(** C7: for every base date and every (possibly negative) month offset,
    [_add_months] lands exactly [months] calendar months after the base
    month, in a valid month 1..12, with the day of month clamped to the
    last day of that month; 2024-01-31 plus one month is 2024-02-29 and
    2023-01-31 plus one month is 2023-02-28 (never March 2). *)
Theorem add_months_calendar_shift :
  (forall (d : date) (k : Z),
      month_index (format_to_month (add_months d k))
        = month_index (format_to_month d) + k
      /\ 1 <= month (add_months d k) <= 12
      /\ day (add_months d k)
           = Z.min (day d) (days_in_month (year (add_months d k))
                                          (month (add_months d k))))
  /\ add_months (mkDate 2024 1 31) 1 = mkDate 2024 2 29
  /\ add_months (mkDate 2023 1 31) 1 = mkDate 2023 2 28.
Proof.
  split; [| split; reflexivity].
  intros [y m dd] k; unfold add_months, month_index, format_to_month; simpl.
  pose proof (Z.div_mod (m - 1 + k) 12 ltac:(lia)) as Hdm.
  pose proof (Z.mod_pos_bound (m - 1 + k) 12 ltac:(lia)) as Hb.
  repeat split; lia.
Qed.

(** C10: when a project's explicit per-stage date is missing, the
    four-stage expansion takes the down payment's date from the start date,
    the second payment's from the delivery date, and the final payment's
    and the retention's from the delivery date plus one calendar month
    (null when the delivery date is missing too); an explicit date is used
    as given. *)
Theorem resolve_payment_date_fallbacks :
  forall p : project,
    map (fun cfg : stage_config => let '(n, _, _, _) := cfg in n) stage_configs
      = ["首付款"; "次付款"; "尾款"; "质保金"]%string
    /\ map (stage_payment_date p) stage_configs
      = [ match time_down p with Some e => Some e | None => start_time p end;
          match time_second p with Some e => Some e | None => delivery_time p end;
          match time_final p with
          | Some e => Some e
          | None => option_map (fun d => add_months d 1) (delivery_time p)
          end;
          match time_retention p with
          | Some e => Some e
          | None => option_map (fun d => add_months d 1) (delivery_time p)
          end ].
Proof.
  intros p; split; [reflexivity |].
  unfold stage_payment_date, stage_configs, resolve_payment_date; simpl.
  destruct (time_down p), (time_second p), (time_final p), (time_retention p),
    (delivery_time p); reflexivity.
Qed.

(** *** Cash-flow expansion and monthly aggregation *)

Lemma qlt_true (a b : Q) : qlt a b = true <-> (a < b)%Q.
Proof.
  unfold qlt; rewrite negb_true_iff; split; intro H.
  - apply Qnot_le_lt; intro H'; apply Qle_bool_iff in H'; congruence.
  - destruct (Qle_bool b a) eqn:E; [| reflexivity].
    apply Qle_bool_iff in E; exfalso; apply (Qlt_not_le a b); assumption.
Qed.

Lemma qlt_false (a b : Q) : qlt a b = false <-> (b <= a)%Q.
Proof.
  unfold qlt; rewrite negb_false_iff; apply Qle_bool_iff.
Qed.

Lemma sum_q_app (l1 l2 : list Q) :
  (sum_q (l1 ++ l2) == sum_q l1 + sum_q l2)%Q.
Proof.
  induction l1 as [| x l1 IH]; simpl.
  - ring.
  - rewrite IH; ring.
Qed.

Lemma stage_entries_sum (p : project) (cfg : stage_config) :
  (0 < final_amount p)%Q ->
  (sum_q (map cf_amount (stage_entries p cfg))
   == final_amount p * (dated_ratio p cfg / 100))%Q.
Proof.
  intros Hpos; destruct cfg as [[[n rc] tc] fb].
  unfold stage_entries, dated_ratio, stage_payment_date.
  destruct (qlt 0 (rc p)) eqn:Er; simpl.
  - destruct (resolve_payment_date (tc p) (start_time p) (delivery_time p) fb)
      as [d |]; simpl.
    + apply qlt_true in Er.
      assert (Ha : qlt 0 (final_amount p * (rc p / 100)) = true).
      { apply qlt_true. apply Qmult_lt_0_compat; [assumption |].
        unfold Qdiv; apply Qmult_lt_0_compat; [assumption | reflexivity]. }
      rewrite Ha; simpl; ring.
    + unfold Qdiv; ring.
  - unfold Qdiv; ring.
Qed.

Lemma stage_entries_nonpos (p : project) (cfg : stage_config) :
  (final_amount p <= 0)%Q -> stage_entries p cfg = [].
Proof.
  intros Hneg; destruct cfg as [[[n rc] tc] fb];
    unfold stage_entries, stage_payment_date.
  destruct (qlt 0 (rc p)) eqn:Er; [| reflexivity].
  destruct (resolve_payment_date (tc p) (start_time p) (delivery_time p) fb);
    [| reflexivity].
  apply qlt_true in Er.
  assert (Ha : qlt 0 (final_amount p * (rc p / 100)) = false).
  { apply qlt_false.
    apply (Qle_trans _ (0 * (rc p / 100))%Q); [| rewrite Qmult_0_l; apply Qle_refl].
    apply Qmult_le_compat_r; [assumption |].
    unfold Qdiv; apply Qmult_le_0_compat; [apply Qlt_le_weak; assumption | discriminate]. }
  rewrite Ha; reflexivity.
Qed.

Lemma flat_map_stage_sum (p : project) (cfgs : list stage_config) :
  (0 < final_amount p)%Q ->
  (sum_q (map cf_amount (flat_map (stage_entries p) cfgs))
   == final_amount p * (sum_q (map (dated_ratio p) cfgs) / 100))%Q.
Proof.
  intros Hpos; induction cfgs as [| c cfgs IH]; simpl.
  - unfold Qdiv; ring.
  - rewrite map_app, sum_q_app, IH, stage_entries_sum by assumption.
    unfold Qdiv; ring.
Qed.

Lemma sum_q_perm (A : Type) (f : A -> Q) (l l' : list A) :
  Permutation l l' -> (sum_q (map f l) == sum_q (map f l'))%Q.
Proof.
  induction 1; simpl.
  - reflexivity.
  - rewrite IHPermutation; reflexivity.
  - ring.
  - rewrite IHPermutation1; assumption.
Qed.

Lemma insert_month_perm (x : Z * Z) (l : list (Z * Z)) :
  Permutation (insert_month x l) (x :: l).
Proof.
  induction l as [| y l IH]; simpl; [reflexivity |].
  destruct (month_leb x y); [reflexivity |].
  rewrite IH; apply perm_swap.
Qed.

Lemma sort_months_perm (l : list (Z * Z)) : Permutation (sort_months l) l.
Proof.
  induction l as [| x l IH]; simpl; [reflexivity |].
  rewrite insert_month_perm, IH; reflexivity.
Qed.

Lemma month_eqb_iff (a b : Z * Z) : month_eqb a b = true <-> a = b.
Proof.
  destruct a as [a1 a2], b as [b1 b2]; unfold month_eqb; simpl.
  rewrite andb_true_iff, !Z.eqb_eq; split.
  - intros [-> ->]; reflexivity.
  - intros H; inversion H; split; reflexivity.
Qed.

Lemma sum_indicator (x : Z * Z) (a : Q) (ks : list (Z * Z)) :
  NoDup ks -> In x ks ->
  (sum_q (map (fun k => if month_eqb x k then a else 0%Q) ks) == a)%Q.
Proof.
  induction 1 as [| k ks Hnin Hnd IH]; simpl; [contradiction |].
  intros [-> | Hin].
  - assert (Hrest : (sum_q (map (fun k0 => if month_eqb x k0 then a else 0%Q) ks)
                     == 0)%Q).
    { clear IH Hnd. induction ks as [| k' ks IHk]; simpl; [reflexivity |].
      destruct (month_eqb x k') eqn:E.
      - apply month_eqb_iff in E; subst; exfalso; apply Hnin; left; reflexivity.
      - rewrite IHk; [ring |]. intro; apply Hnin; right; assumption. }
    assert (E : month_eqb x x = true) by (apply month_eqb_iff; reflexivity).
    rewrite E, Hrest; ring.
  - destruct (month_eqb x k) eqn:E.
    + apply month_eqb_iff in E; subst; contradiction.
    + rewrite IH by assumption; ring.
Qed.

Lemma month_totals_sum (es : list entry) (ks : list (Z * Z)) :
  NoDup ks -> (forall e, In e es -> In (cf_month e) ks) ->
  (sum_q (map (fun k => month_total k es) ks) == sum_q (map cf_amount es))%Q.
Proof.
  intros Hnd; induction es as [| e es IH]; intros Hcov; simpl.
  - unfold month_total; simpl. clear Hnd Hcov.
    induction ks as [| k ks IHk]; simpl; [reflexivity | rewrite IHk; ring].
  - transitivity (sum_q (map (fun k => if month_eqb (cf_month e) k
                                        then cf_amount e else 0%Q) ks)
                  + sum_q (map (fun k => month_total k es) ks))%Q.
    + clear IH Hcov Hnd. unfold month_total, entries_in.
      induction ks as [| k ks IHk]; simpl; [ring |].
      destruct (month_eqb (cf_month e) k); simpl; rewrite IHk; ring.
    + rewrite sum_indicator, IH; [reflexivity | | assumption |].
      * intros e' He'; apply Hcov; right; assumption.
      * apply Hcov; left; reflexivity.
Qed.

Lemma monthly_summary_total (es : list entry) :
  (sum_q (map ms_total (calculate_monthly_summary es))
   == sum_q (map cf_amount es))%Q.
Proof.
  destruct es as [| e0 es0] eqn:Ees; [reflexivity |].
  rewrite <- Ees. unfold calculate_monthly_summary; rewrite Ees; rewrite <- Ees.
  rewrite map_map; simpl.
  rewrite (sum_q_perm _ (fun k => month_total k es) _ _
             (sort_months_perm (nodup month_eq_dec (map cf_month es)))).
  apply month_totals_sum; [apply NoDup_nodup |].
  intros e He; apply nodup_In, in_map; assumption.
Qed.

Lemma sum_q_map_ext (A : Type) (f g : A -> Q) (l : list A) :
  (forall x, In x l -> (f x == g x)%Q) ->
  (sum_q (map f l) == sum_q (map g l))%Q.
Proof.
  induction l as [| x l IH]; intros H; simpl; [reflexivity |].
  rewrite (H x (or_introl eq_refl)), IH; [reflexivity |].
  intros y Hy; apply H; right; assumption.
Qed.

Lemma dated_ratio_full (p : project) (cfg : stage_config) :
  (0 <= cfg_ratio p cfg)%Q ->
  ((0 < cfg_ratio p cfg)%Q -> stage_payment_date p cfg <> None) ->
  (dated_ratio p cfg == cfg_ratio p cfg)%Q.
Proof.
  destruct cfg as [[[n rc] tc] fb];
    unfold dated_ratio, cfg_ratio, stage_payment_date; intros Hnn Hd.
  destruct (qlt 0 (rc p)) eqn:Er; simpl.
  - apply qlt_true in Er.
    destruct (resolve_payment_date (tc p) (start_time p) (delivery_time p) fb);
      simpl; [reflexivity |].
    exfalso; apply (Hd Er); reflexivity.
  - apply qlt_false in Er. apply Qle_antisym; assumption.
Qed.

(** C2: for a project with positive final amount, the emitted entries
    sum to final_amount times the total percent of the stages that have a
    positive ratio AND a resolved date (a stage without a date is dropped:
    neither emitted nor reported as unscheduled); a project with
    final_amount <= 0 emits nothing; so with non-negative ratios summing to
    100 the entries sum to final_amount when every positive-ratio stage has
    a date; and the monthly totals add up to the sum of all entries. *)
Theorem cash_flow_conservation_dated :
  (forall p : project, (0 < final_amount p)%Q ->
     (sum_q (map cf_amount (calculate_single_project_cash_flow p))
      == final_amount p * (sum_q (map (dated_ratio p) stage_configs) / 100))%Q)
  /\ (forall p : project, (final_amount p <= 0)%Q ->
       calculate_single_project_cash_flow p = [])
  /\ (forall p : project,
        (0 <= final_amount p)%Q ->
        (forall cfg, In cfg stage_configs -> (0 <= cfg_ratio p cfg)%Q) ->
        (sum_q (map (cfg_ratio p) stage_configs) == 100)%Q ->
        (forall cfg, In cfg stage_configs -> (0 < cfg_ratio p cfg)%Q ->
                     stage_payment_date p cfg <> None) ->
        (sum_q (map cf_amount (calculate_single_project_cash_flow p))
         == final_amount p)%Q)
  /\ (forall es : list entry,
        (sum_q (map ms_total (calculate_monthly_summary es))
         == sum_q (map cf_amount es))%Q).
Proof.
  assert (Hneg : forall p : project, (final_amount p <= 0)%Q ->
                 calculate_single_project_cash_flow p = []).
  { intros p H; unfold calculate_single_project_cash_flow.
    induction stage_configs as [| c cs IH]; simpl; [reflexivity |].
    rewrite stage_entries_nonpos by assumption; exact IH. }
  split; [| split; [exact Hneg | split]].
  - intros p Hpos; apply flat_map_stage_sum; assumption.
  - intros p Hnn Hr Hsum Hd.
    destruct (Qlt_le_dec 0 (final_amount p)) as [Hpos | Hle].
    + unfold calculate_single_project_cash_flow.
      rewrite flat_map_stage_sum by assumption.
      rewrite (sum_q_map_ext _ (dated_ratio p) (cfg_ratio p)), Hsum.
      * field.
      * intros cfg Hin; apply dated_ratio_full; [apply Hr | apply Hd]; assumption.
    + rewrite Hneg by assumption; simpl.
      apply Qle_antisym; assumption.
  - exact monthly_summary_total.
Qed.

(** C2 as stated fails: project [undated_start_project] has stage ratios
    summing to 100 percent, but its down payment (50 percent) has no date
    (no explicit date, no start date), so only 50 of its final amount 100
    is emitted, and nothing is reported for the missing half. *)
Lemma cash_flow_conservation_counterexample :
  (sum_q (map (cfg_ratio Samples.undated_start_project) stage_configs) == 100)%Q
  /\ ~ (sum_q (map cf_amount
                 (calculate_single_project_cash_flow Samples.undated_start_project))
        == final_amount Samples.undated_start_project)%Q
  /\ (sum_q (map cf_amount
               (calculate_single_project_cash_flow Samples.undated_start_project))
      == 50)%Q.
Proof.
  split; [reflexivity | split; [| reflexivity]].
  vm_compute; discriminate.
Qed.

(** *** Forecast *)

Definition dfc : fc_row := mkFcRow (0, 0) 0 0.
Definition drw : rw_row := mkRwRow (0, 0) 0 0 0 0.

Lemma build_forecast_length (acc : Q) (f : Z * Z -> Q) (ms : list (Z * Z)) :
  length (build_forecast acc f ms) = length ms.
Proof.
  revert acc; induction ms as [| m ms IH]; intros acc; simpl; [reflexivity |].
  rewrite IH; reflexivity.
Qed.

Lemma build_forecast_nth (f : Z * Z -> Q) (ms : list (Z * Z)) :
  forall (acc : Q) (i : nat), (i < length ms)%nat ->
    fc_month (nth i (build_forecast acc f ms) dfc) = nth i ms (0, 0)
    /\ fc_amount (nth i (build_forecast acc f ms) dfc) = f (nth i ms (0, 0))
    /\ (fc_cum (nth i (build_forecast acc f ms) dfc)
        == acc + sum_q (map fc_amount (firstn (S i) (build_forecast acc f ms))))%Q.
Proof.
  induction ms as [| m ms IH]; intros acc i Hi; simpl in Hi; [lia |].
  destruct i as [| i]; simpl.
  - split; [reflexivity | split; [reflexivity | ring]].
  - destruct (IH (acc + f m)%Q i ltac:(lia)) as (H1 & H2 & H3).
    split; [exact H1 | split; [exact H2 |]].
    rewrite H3; simpl; ring.
Qed.

Lemma future_months_nth (cur : date) (n i : nat) :
  (i < n)%nat ->
  nth i (future_months cur n) (0, 0) = format_to_month (add_months cur (Z.of_nat i)).
Proof.
  intros Hi; unfold future_months.
  assert (Hgen : forall (A : Type) (f : nat -> A) (d : A),
             nth i (map f (seq 0 n)) d = f i).
  { intros A f d.
    rewrite (nth_indep _ d (f 0%nat)) by (rewrite length_map, length_seq; assumption).
    rewrite map_nth, seq_nth by assumption; reflexivity. }
  apply Hgen.
Qed.

Lemma forecast_length (es : list entry) (n : nat) (now : date) :
  es <> [] -> length (forecast_cash_flow es n true now) = n.
Proof.
  intros Hne; destruct es; [contradiction |].
  unfold forecast_cash_flow; rewrite build_forecast_length; unfold future_months;
    rewrite length_map, length_seq; reflexivity.
Qed.

(** C5: on an empty cash-flow input the forecast is empty (0 rows, for
    every horizon); on a non-empty input with [fill_zero_months=True] it has
    exactly [months_ahead] rows whose months are consecutive (row [i] is
    [i] months after the current month, a valid month 1..12), so strictly
    ascending and without duplicates; each amount is the month's total of
    the monthly summary, 0 when the month has none, and the cumulative column
    is the running sum of the amounts. *)
Theorem forecast_shape :
  (forall (n : nat) (fill : bool) (now : date), forecast_cash_flow [] n fill now = [])
  /\ (forall (ms : list month_row) (k : Z * Z),
        lookup_month k ms = None -> merged_amount ms k = 0%Q)
  /\ (forall (es : list entry) (n : nat) (now : date), es <> [] ->
      length (forecast_cash_flow es n true now) = n
      /\ forall i : nat, (i < n)%nat ->
           month_index (fc_month (nth i (forecast_cash_flow es n true now) dfc))
             = month_index (year now, month now) + Z.of_nat i
           /\ 1 <= snd (fc_month (nth i (forecast_cash_flow es n true now) dfc)) <= 12
           /\ fc_amount (nth i (forecast_cash_flow es n true now) dfc)
              = merged_amount (calculate_monthly_summary es)
                  (fc_month (nth i (forecast_cash_flow es n true now) dfc))
           /\ (fc_cum (nth i (forecast_cash_flow es n true now) dfc)
               == sum_q (map fc_amount
                           (firstn (S i) (forecast_cash_flow es n true now))))%Q).
Proof.
  split; [reflexivity | split].
  - intros ms k H; unfold merged_amount; rewrite H; destruct ms; reflexivity.
  - intros es n now Hne.
    assert (Hfc : forecast_cash_flow es n true now
                  = build_forecast 0 (merged_amount (calculate_monthly_summary es))
                      (future_months (mkDate (year now) (month now) 1) n)).
    { destruct es; [contradiction | reflexivity]. }
    rewrite Hfc; clear Hfc.
    split.
    + rewrite build_forecast_length; unfold future_months;
        rewrite length_map, length_seq; reflexivity.
    + intros i Hi.
      assert (Hl : (i < length (future_months (mkDate (year now) (month now) 1) n))%nat)
        by (unfold future_months; rewrite length_map, length_seq; assumption).
      destruct (build_forecast_nth (merged_amount (calculate_monthly_summary es))
                  _ 0 i Hl) as (H1 & H2 & H3).
      rewrite H1, H2, H3, future_months_nth by assumption.
      destruct (add_months_index (mkDate (year now) (month now) 1) (Z.of_nat i))
        as [Hidx Hm].
      split; [exact Hidx | split; [exact Hm | split; [reflexivity | ring]]].
Qed.

Lemma forecast_shape_witness :
  Samples.sample_entries <> []
  /\ length (forecast_cash_flow Samples.sample_entries 3%nat true (mkDate 2024 6 10)) = 3%nat.
Proof.
  assert (Hne : Samples.sample_entries <> []) by (vm_compute; discriminate).
  split; [exact Hne |].
  apply (proj2 (proj2 forecast_shape) Samples.sample_entries 3%nat (mkDate 2024 6 10) Hne).
Defined.

(** C5 as stated fails on an input with zero cash-flow rows: the forecast
    for a 12-month horizon with [fill_zero_months=True] has no row at all. *)
Lemma forecast_empty_input_counterexample :
  length (forecast_cash_flow [] 12%nat true (mkDate 2024 6 10)) = 0%nat
  /\ length (forecast_cash_flow [] 12%nat true (mkDate 2024 6 10)) <> 12%nat.
Proof. split; [reflexivity | discriminate]. Qed.

(** *** Runway *)

Lemma build_balances_length (prev e : Q) (fc : list fc_row) :
  length (build_balances prev e fc) = length fc.
Proof.
  revert prev; induction fc as [| r fc IH]; intros prev; simpl; [reflexivity |].
  rewrite IH; reflexivity.
Qed.

Lemma build_balances_nth (e : Q) (fc : list fc_row) :
  forall (prev : Q) (i : nat), (i < length fc)%nat ->
    rw_income (nth i (build_balances prev e fc) drw) = fc_amount (nth i fc dfc)
    /\ rw_expense (nth i (build_balances prev e fc) drw) = e
    /\ rw_net (nth i (build_balances prev e fc) drw)
       = (rw_income (nth i (build_balances prev e fc) drw) - e)%Q.
Proof.
  induction fc as [| r fc IH]; intros prev i Hi; simpl in Hi; [lia |].
  destruct i as [| i]; simpl; [repeat split |].
  apply IH; lia.
Qed.

Lemma build_balances_first (prev e : Q) (r : fc_row) (fc : list fc_row) :
  rw_balance (nth 0 (build_balances prev e (r :: fc)) drw)
  = (prev + rw_net (nth 0 (build_balances prev e (r :: fc)) drw))%Q.
Proof. reflexivity. Qed.

Lemma build_balances_step (e : Q) (fc : list fc_row) :
  forall (prev : Q) (i : nat), (S i < length fc)%nat ->
    rw_balance (nth (S i) (build_balances prev e fc) drw)
    = (rw_balance (nth i (build_balances prev e fc) drw)
       + rw_net (nth (S i) (build_balances prev e fc) drw))%Q.
Proof.
  induction fc as [| r fc IH]; intros prev i Hi; simpl in Hi; [lia |].
  destruct fc as [| r' fc]; simpl in Hi; [lia |].
  destruct i as [| i]; [reflexivity |].
  change (nth (S (S i)) (build_balances prev e (r :: r' :: fc)) drw)
    with (nth (S i) (build_balances (prev + (fc_amount r - e))%Q e (r' :: fc)) drw).
  change (nth (S i) (build_balances prev e (r :: r' :: fc)) drw)
    with (nth i (build_balances (prev + (fc_amount r - e))%Q e (r' :: fc)) drw).
  apply IH; simpl; lia.
Qed.

Lemma count_runway_spec (rows : list rw_row) :
  (count_runway rows <= length rows)%nat
  /\ (forall i, (i < count_runway rows)%nat -> (0 < rw_balance (nth i rows drw))%Q)
  /\ ((count_runway rows < length rows)%nat ->
      (rw_balance (nth (count_runway rows) rows drw) <= 0)%Q).
Proof.
  induction rows as [| r rows (IH1 & IH2 & IH3)]; simpl.
  - split; [lia | split; intros; lia].
  - destruct (Qle_bool (rw_balance r) 0) eqn:E.
    + apply Qle_bool_iff in E.
      split; [lia | split; [intros; lia | intros; exact E]].
    + split; [lia | split].
      * intros [| i] Hi; simpl.
        -- apply Qnot_le_lt; intro H; apply Qle_bool_iff in H; congruence.
        -- apply IH2; lia.
      * intros Hlt; apply IH3; lia.
Qed.

Lemma runway_table (es : list entry) (init e : Q) (n : nat) (now : date) :
  es <> [] ->
  monthly_summary (calculate_runway es init e n now)
    = build_balances init e (forecast_cash_flow es n true now)
  /\ runway_months (calculate_runway es init e n now)
    = count_runway (build_balances init e (forecast_cash_flow es n true now)).
Proof.
  intros Hne; unfold calculate_runway.
  destruct es as [| e0 es0]; [contradiction |].
  destruct (forecast_cash_flow (e0 :: es0) n true now); split; reflexivity.
Qed.

(** C3: with no cash-flow data the runway is 0, the minimum balance is the
    initial cash and the table is empty. With data, the table has
    [months_ahead] rows; row [i] has the forecast income of month [i], the
    monthly expense as cost and net flow income - cost; balance[0] is
    initial_cash + net[0] and balance[i] = balance[i-1] + net[i]; the runway
    counts the leading months with a positive balance, stops at the first
    month with balance <= 0, and equals [months_ahead] when no balance in
    the horizon is <= 0. *)
Theorem runway_balance_recurrence :
  (forall (init e : Q) (n : nat) (now : date),
      calculate_runway [] init e n now = mkRunway 0 init [])
  /\ (forall (es : list entry) (init e : Q) (n : nat) (now : date), es <> [] ->
      let r := calculate_runway es init e n now in
      let tbl := monthly_summary r in
      length tbl = n
      /\ (forall i, (i < n)%nat ->
            rw_income (nth i tbl drw)
              = fc_amount (nth i (forecast_cash_flow es n true now) dfc)
            /\ rw_expense (nth i tbl drw) = e
            /\ rw_net (nth i tbl drw) = (rw_income (nth i tbl drw) - e)%Q)
      /\ ((0 < n)%nat ->
            rw_balance (nth 0 tbl drw) = (init + rw_net (nth 0 tbl drw))%Q)
      /\ (forall i, (S i < n)%nat ->
            rw_balance (nth (S i) tbl drw)
              = (rw_balance (nth i tbl drw) + rw_net (nth (S i) tbl drw))%Q)
      /\ (runway_months r <= n)%nat
      /\ (forall i, (i < runway_months r)%nat -> (0 < rw_balance (nth i tbl drw))%Q)
      /\ ((runway_months r < n)%nat ->
            (rw_balance (nth (runway_months r) tbl drw) <= 0)%Q)
      /\ ((forall i, (i < n)%nat -> (0 < rw_balance (nth i tbl drw))%Q) ->
            runway_months r = n)).
Proof.
  split; [reflexivity |].
  intros es init e n now Hne; cbv zeta.
  destruct (runway_table es init e n now Hne) as [Ht Hr].
  rewrite Ht, Hr.
  assert (Hlen : length (forecast_cash_flow es n true now) = n)
    by (apply (forecast_length es n now Hne)).
  destruct (count_runway_spec (build_balances init e (forecast_cash_flow es n true now)))
    as (C1 & C2 & C3).
  rewrite build_balances_length, Hlen in C1, C3.
  split; [rewrite build_balances_length; exact Hlen |].
  split; [intros i Hi; apply build_balances_nth; lia |].
  split.
  { intros Hn. destruct (forecast_cash_flow es n true now) as [| r0 fc]; simpl in Hlen;
      [lia | reflexivity]. }
  split; [intros i Hi; apply build_balances_step; lia |].
  split; [exact C1 |].
  split; [exact C2 |].
  split; [exact C3 |].
  intros Hall.
  destruct (Nat.lt_ge_cases (count_runway (build_balances init e
              (forecast_cash_flow es n true now))) n) as [Hlt | Hge]; [| lia].
  exfalso. specialize (C3 Hlt). specialize (Hall _ Hlt).
  apply (Qlt_not_le _ _ Hall C3).
Qed.

Lemma runway_balance_recurrence_witness :
  Samples.sample_entries <> []
  /\ length (monthly_summary
               (calculate_runway Samples.sample_entries 100%Q 50%Q 3%nat (mkDate 2024 6 10)))
     = 3%nat.
Proof.
  assert (Hne : Samples.sample_entries <> []) by (vm_compute; discriminate).
  split; [exact Hne |].
  apply (proj2 runway_balance_recurrence Samples.sample_entries 100%Q 50%Q 3%nat
           (mkDate 2024 6 10) Hne).
Defined.

(** The runway scenario of the spec on the balance loop: initial cash 100,
    income 20 and cost 50 per month give balances 70, 40, 10 and a runway of
    3; a fourth month without income gives -40, the runway stays 3 and the
    minimum is -40. *)
Example runway_scenario :
  let fc := [mkFcRow (2024, 6) 20 0; mkFcRow (2024, 7) 20 0; mkFcRow (2024, 8) 20 0] in
  let fc4 := fc ++ [mkFcRow (2024, 9) 0 0] in
  map rw_balance (build_balances 100 50 fc) = [70; 40; 10]%Q
  /\ count_runway (build_balances 100 50 fc) = 3%nat
  /\ min_balance (build_balances 100 50 fc) 100 = 10%Q
  /\ count_runway (build_balances 100 50 fc4) = 3%nat
  /\ min_balance (build_balances 100 50 fc4) 100 = (-40)%Q.
Proof. vm_compute; repeat split. Qed.

Lemma cash_flow_conservation_dated_witness :
  (sum_q (map cf_amount
            (calculate_single_project_cash_flow Samples.dated_project))
   == final_amount Samples.dated_project)%Q.
Proof.
  apply (proj1 (proj2 (proj2 cash_flow_conservation_dated)) Samples.dated_project).
  - vm_compute; discriminate.
  - intros cfg Hin; simpl in Hin.
    repeat destruct Hin as [<- | Hin]; try contradiction; vm_compute; discriminate.
  - reflexivity.
  - intros cfg Hin; simpl in Hin.
    repeat destruct Hin as [<- | Hin]; try contradiction; intros _; vm_compute; discriminate.
Defined.

(** *** Template validation *)

Lemma check_stages_false (stages : list vstage) :
  forall i : nat,
    fst (check_stages i stages) = false
    <-> exists st, In st stages
                   /\ (name_missing (v_name st) = true \/ (v_ratio st <= 0)%Q).
Proof.
  induction stages as [| st rest IH]; intros i; simpl.
  - split; [discriminate | intros (st & [] & _)].
  - destruct (name_missing (v_name st)) eqn:En; simpl.
    + split; [intros _; exists st; split; [left; reflexivity | left; exact En]
             | intros _; reflexivity].
    + destruct (Qle_bool (v_ratio st) 0) eqn:Er; simpl.
      * apply Qle_bool_iff in Er.
        split; [intros _; exists st; split; [left; reflexivity | right; exact Er]
               | intros _; reflexivity].
      * rewrite IH; split.
        -- intros (st' & Hin & Hbad); exists st'; split; [right; exact Hin | exact Hbad].
        -- intros (st' & [<- | Hin] & Hbad).
           ++ destruct Hbad as [Hb | Hb]; [congruence |].
              apply Qle_bool_iff in Hb; congruence.
           ++ exists st'; split; assumption.
Qed.

Lemma validate_template_nonempty (stages : list vstage) :
  stages <> [] ->
  validate_template stages
  = if qlt (1#100) (Qabs (sum_q (map v_ratio stages) - 1))
    then (false, BadRatioSum (sum_q (map v_ratio stages)))
    else check_stages 1 stages.
Proof. destruct stages; [contradiction | reflexivity]. Qed.

Lemma validate_template_bad_sum (stages : list vstage) (t : Q) :
  ~ (t == 0)%Q ->
  (sum_q (map v_ratio stages) == t)%Q -> (1#100 < Qabs (t - 1))%Q ->
  validate_template stages = (false, BadRatioSum (sum_q (map v_ratio stages))).
Proof.
  intros Hnz Ht Hbad.
  rewrite validate_template_nonempty.
  - assert (Hq : qlt (1#100) (Qabs (sum_q (map v_ratio stages) - 1)) = true).
    { apply qlt_true. rewrite Ht; exact Hbad. }
    rewrite Hq; reflexivity.
  - intros ->; simpl in Ht; apply Hnz; symmetry; exact Ht.
Qed.

(** C8: [validate_template] rejects a stage list exactly when its ratio sum
    is outside 1.0 +- 0.01 or some stage lacks a name or has a ratio <= 0
    (the empty list has sum 0 and is rejected); a list whose ratios sum to
    0.85 or to 1.15 is rejected with the ratio-sum failure, not corrected. *)
Theorem validate_template_rejects :
  (forall stages : list vstage,
      fst (validate_template stages) = false
      <-> (1#100 < Qabs (sum_q (map v_ratio stages) - 1))%Q
          \/ exists st, In st stages
                        /\ (name_missing (v_name st) = true \/ (v_ratio st <= 0)%Q))
  /\ (forall stages : list vstage, (sum_q (map v_ratio stages) == 85#100)%Q ->
        validate_template stages = (false, BadRatioSum (sum_q (map v_ratio stages))))
  /\ (forall stages : list vstage, (sum_q (map v_ratio stages) == 115#100)%Q ->
        validate_template stages = (false, BadRatioSum (sum_q (map v_ratio stages)))).
Proof.
  split; [| split; intros stages H; refine (validate_template_bad_sum _ _ _ H _);
            solve [intro Hx; vm_compute in Hx; discriminate Hx | vm_compute; reflexivity]].
  intros stages; destruct stages as [| st0 rest0].
  - simpl; split; [intros _; left; vm_compute; reflexivity | intros _; reflexivity].
  - rewrite validate_template_nonempty by discriminate.
    set (stages := st0 :: rest0).
    destruct (qlt (1#100) (Qabs (sum_q (map v_ratio stages) - 1))) eqn:Eq.
    + apply qlt_true in Eq; simpl; split; [intros _; left; exact Eq | intros _; reflexivity].
    + apply qlt_false in Eq. rewrite check_stages_false; split.
      * intros H; right; exact H.
      * intros [H | H]; [exfalso; apply (Qlt_not_le _ _ H Eq) | exact H].
Qed.

Lemma validate_template_rejects_witness :
  validate_template [mkVStage (Some "首付款"%string) (5#10); mkVStage (Some "尾款"%string) (35#100)]
  = (false, BadRatioSum (sum_q (map v_ratio
        [mkVStage (Some "首付款"%string) (5#10); mkVStage (Some "尾款"%string) (35#100)]))).
Proof.
  apply (proj1 (proj2 validate_template_rejects)).
  vm_compute; reflexivity.
Defined.

(** *** Stage source: persisted schedule or default template *)




(** *** Win-probability parsing *)

Section RateProofs.
Local Open Scope string_scope.


Lemma rate_char_not_upper c : rate_char c = true -> is_upper c = false.
Proof. destruct c as [[] [] [] [] [] [] [] []]; vm_compute; congruence. Qed.










Lemma lower_rate s : all_chars rate_char s = true -> lower s = s.
Proof.
  induction s as [| c s IH]; simpl; [reflexivity |].
  intros H; apply andb_prop in H as [H1 H2].
  rewrite (IH H2), (rate_char_not_upper c H1); reflexivity.
Qed.
















Lemma int_part_no_digit s acc n :
  all_chars no_digit_char s = true -> int_part s acc n = (acc, n, s).
Proof.
  destruct s as [| c s]; simpl; [reflexivity |].
  intros H; apply andb_prop in H as [H _]; unfold no_digit_char in H.
  destruct (is_digit c); [discriminate | reflexivity].
Qed.

Lemma unsigned_no_digit s :
  all_chars no_digit_char s = true -> unsigned_decimal s = None.
Proof.
  intros H; unfold unsigned_decimal; rewrite int_part_no_digit by exact H.
  destruct s as [| c r]; [reflexivity |].
  simpl in H; apply andb_prop in H as [_ H].
  destruct c as [[] [] [] [] [] [] [] []]; try reflexivity.
  rewrite int_part_no_digit by exact H.
  destruct r; reflexivity.
Qed.

Lemma split_exp_chars p s : all_chars p s = true -> all_chars p (fst (split_exp s)) = true.
Proof.
  induction s as [| c r IH]; simpl; [reflexivity |].
  intros H; apply andb_prop in H as [H1 H2].
  destruct (Ascii.eqb c "e" || Ascii.eqb c "E"); [reflexivity |].
  destruct (split_exp r) as [m e] eqn:E; simpl in *.
  rewrite H1; apply IH, H2.
Qed.

Lemma unsigned_number_no_digit s :
  all_chars no_digit_char s = true -> unsigned_number s = None.
Proof.
  intros H; unfold unsigned_number.
  assert (Hm := split_exp_chars _ _ H).
  destruct (split_exp s) as [m [es |]]; simpl in Hm;
    rewrite (unsigned_no_digit m Hm); reflexivity.
Qed.

(** Without a digit, only the infinity words are read. *)
Lemma to_numeric_no_digit s :
  all_chars no_digit_char s = true -> to_numeric s = inf_word s.
Proof.
  intros H; unfold to_numeric.
  match goal with |- match ?f with _ => _ end = _ => assert (Hf : f = None) end;
    [| rewrite Hf; reflexivity].
  destruct s as [| c r]; [reflexivity |].
  assert (Hr : all_chars no_digit_char r = true)
    by (simpl in H; apply andb_prop in H as [_ H]; exact H).
  destruct c as [[] [] [] [] [] [] [] []]; cbv beta iota;
    first [ rewrite (unsigned_number_no_digit r Hr); reflexivity
          | apply unsigned_number_no_digit; exact H ].
Qed.


Lemma inf_word_rate s : all_chars rate_char s = true -> inf_word s = None.
Proof.
  intros H; unfold inf_word; rewrite (lower_rate s H).
  repeat match goal with
         | |- context [String.eqb s ?w] =>
             destruct (String.eqb_spec s w) as [-> | _]; [vm_compute in H; discriminate H |]
         end.
  reflexivity.
Qed.


Lemma keep_in_range_some r q :
  keep_in_range r = Some q -> r = Some (Fin q) /\ (0 <= q <= 100)%Q.
Proof.
  destruct r as [[x | n] |]; simpl; try discriminate.
  unfold in_percent_range.
  destruct (Qle_bool 0 x) eqn:E1, (Qle_bool x 100) eqn:E2; simpl; try discriminate.
  intros H; injection H as <-; apply Qle_bool_iff in E1, E2; auto.
Qed.

End RateProofs.




(** *** Final amount: overrides, prediction and rounding *)

Lemma ts_le_refl a : ts_le a a = true.
Proof. destruct a; simpl; [apply Z.leb_refl | reflexivity]. Qed.

Lemma ts_le_trans a b c : ts_le a b = true -> ts_le b c = true -> ts_le a c = true.
Proof.
  destruct a as [x |], b as [y |], c as [z |]; simpl; try reflexivity; try discriminate.
  rewrite !Z.leb_le; lia.
Qed.

Lemma ts_le_total a b : ts_le a b = false -> ts_le b a = true.
Proof.
  destruct a as [x |], b as [y |]; simpl; try reflexivity; try discriminate.
  rewrite Z.leb_gt, Z.leb_le; lia.
Qed.

Lemma insert_override_perm o l : Permutation (o :: l) (insert_override o l).
Proof.
  induction l as [| o' l IH]; simpl; [reflexivity |].
  destruct (ts_le (updated_at o) (updated_at o')); [reflexivity |].
  eapply perm_trans; [apply perm_swap | apply perm_skip, IH].
Qed.

Lemma sort_overrides_perm l : Permutation l (sort_overrides l).
Proof.
  induction l as [| o l IH]; simpl; [reflexivity |].
  eapply perm_trans; [apply perm_skip, IH | apply insert_override_perm].
Qed.

Lemma insert_override_sorted o l : Sorted ov_le l -> Sorted ov_le (insert_override o l).
Proof.
  induction 1 as [| o' l Hs IH Hhd]; simpl; [repeat constructor |].
  destruct (ts_le (updated_at o) (updated_at o')) eqn:E.
  - constructor; [constructor; assumption | constructor; exact E].
  - constructor; [exact IH |].
    destruct l as [| o'' l]; simpl.
    + constructor; apply ts_le_total, E.
    + destruct (ts_le (updated_at o) (updated_at o'')).
      * constructor; apply ts_le_total, E.
      * inversion Hhd; constructor; assumption.
Qed.

Lemma sort_overrides_sorted l : Sorted ov_le (sort_overrides l).
Proof. induction l; simpl; [constructor | apply insert_override_sorted; assumption]. Qed.

Lemma latest_override_none rid l :
  (forall o, In o l -> ov_record_id o <> rid) -> latest_override_amount rid l = None.
Proof.
  induction l as [| o l IH]; intros H; simpl; [reflexivity |].
  rewrite IH by (intros o' Hin; apply H; right; exact Hin).
  destruct (String.eqb_spec (ov_record_id o) rid) as [E | _]; [| reflexivity].
  exfalso; exact (H o (or_introl eq_refl) E).
Qed.

Lemma latest_override_in rid l a :
  latest_override_amount rid l = Some a ->
  exists o, In o l /\ ov_record_id o = rid /\ override_amount o = a.
Proof.
  induction l as [| o l IH]; simpl; [discriminate |].
  destruct (latest_override_amount rid l) as [a' |].
  - intros H; destruct (IH H) as [o' [Hin Ho']]; exists o'; split; [right |]; assumption.
  - destruct (String.eqb_spec (ov_record_id o) rid) as [E | _]; [| discriminate].
    intros H; injection H as <-; exists o; split; [left |]; auto.
Qed.

Lemma latest_override_max rid l :
  StronglySorted ov_le l ->
  (exists o, In o l /\ ov_record_id o = rid) ->
  exists o, In o l /\ ov_record_id o = rid
    /\ latest_override_amount rid l = Some (override_amount o)
    /\ forall o', In o' l -> ov_record_id o' = rid -> ov_le o' o.
Proof.
  induction 1 as [| o l Hs IH Hall]; intros [x [Hin Hx]]; [destruct Hin |].
  simpl; destruct (latest_override_amount rid l) as [a |] eqn:E.
  - destruct (latest_override_in rid l a E) as [y [Hy [Hyr _]]].
    destruct (IH (ex_intro _ y (conj Hy Hyr))) as [m [Hm [Hmr [Hml Hmax]]]].
    rewrite ?E in Hml; injection Hml as ->.
    exists m; split; [right; exact Hm | split; [exact Hmr | split; [reflexivity |]]].
    intros o' [<- | Hin'] Ho'; [| exact (Hmax o' Hin' Ho')].
    rewrite Forall_forall in Hall; exact (Hall m Hm).
  - assert (Hnone : forall o', In o' l -> ov_record_id o' <> rid).
    { intros o' Hin' Ho'.
      destruct (IH (ex_intro _ o' (conj Hin' Ho'))) as [m [_ [_ [Hml _]]]].
      rewrite ?E in Hml; discriminate. }
    destruct Hin as [<- | Hin]; [| exfalso; exact (Hnone x Hin Hx)].
    rewrite (proj2 (String.eqb_eq _ _) Hx).
    exists o; split; [left; reflexivity | split; [exact Hx | split; [reflexivity |]]].
    intros o' [<- | Hin'] Ho'; [apply ts_le_refl | exfalso; exact (Hnone o' Hin' Ho')].
Qed.

Lemma round_half_even_nonneg q : (0 <= q)%Q -> (0 <= round_half_even q)%Z.
Proof.
  intros Hq; unfold round_half_even.
  assert (Hf : (0 <= Qfloor q)%Z).
  { assert (H := Qlt_floor q).
    destruct (Z_lt_le_dec (Qfloor q) 0) as [Hlt |]; [| assumption].
    exfalso; assert (Hle : (Qfloor q + 1 <= 0)%Z) by lia.
    apply (Qlt_not_le _ _ H).
    apply Qle_trans with 0%Q; [| exact Hq].
    rewrite Zle_Qle in Hle; exact Hle. }
  destruct (Qle_bool _ _); [| exact Hf].
  destruct (Qeq_bool _ _); [destruct (Z.even _) |]; lia.
Qed.

Lemma round2_nonneg q : (0 <= q)%Q -> (0 <= round2 q)%Q.
Proof.
  intros Hq; unfold round2, Qdiv.
  apply Qmult_le_0_compat; [| discriminate].
  change 0%Q with (inject_Z 0); rewrite <- Zle_Qle.
  apply round_half_even_nonneg.
  apply Qmult_le_0_compat; [exact Hq | discriminate].
Qed.

Lemma parse_rate_cell_nonneg s q : parse_rate_cell s = Some q -> (0 <= q)%Q.
Proof.
  unfold parse_rate_cell; intros H.
  apply keep_in_range_some in H as [_ [H _]]; exact H.
Qed.

Lemma row_pred_amount_nonneg r :
  (0 <= parse_amount_wan (pr_amount r))%Q -> (0 <= pr_decay r)%Q ->
  (0 <= row_pred_amount r)%Q.
Proof.
  intros Ha Hd; unfold row_pred_amount, system_pred_amount, rate_for_calc.
  assert (Hr : (0 <= match parse_rate_cell (pr_rate r) with Some q => q | None => 0 end)%Q).
  { destruct (parse_rate_cell (pr_rate r)) eqn:E; [exact (parse_rate_cell_nonneg _ _ E) |
      apply Qle_refl]. }
  apply Qmult_le_0_compat; [apply Qmult_le_0_compat; [exact Ha |] | exact Hd].
  unfold Qdiv; apply Qmult_le_0_compat; [exact Hr | discriminate].
Qed.

(** C1 (amended): [_final_amount] is always a number.  Take the Overrides
    table sorted by [updated_at] (NaT last) in any order [sort_values] may
    produce, e.g. [sort_overrides].  When an override row carries the
    project's record id, the final amount is the override amount of one of
    those rows with the greatest [updated_at] (an undated one counting as
    latest), rounded to 2 decimals; otherwise it is the prediction
    amount × (rate/100) × decay, rounded to 2 decimals, where a missing
    amount or rate reads as 0.  It is >= 0 when the parsed amount, the
    decay factor and the project's override amounts are >= 0. *)
Theorem final_amount_resolution :
  (forall overrides : list override,
      Permutation overrides (sort_overrides overrides)
      /\ Sorted ov_le (sort_overrides overrides))
  /\ (forall (rid : string) (rate : string) (decay : Q),
      row_pred_amount (mkPRow rid None rate decay) == 0)%Q
  /\ (forall (rid : string) (amount : option string) (decay : Q),
      row_pred_amount (mkPRow rid amount "nan" decay) == 0)%Q
  /\ (forall (overrides sorted : list override) (r : prow),
      Permutation overrides sorted -> Sorted ov_le sorted ->
      ((exists o, In o overrides /\ ov_record_id o = pr_record_id r) ->
       exists o, In o overrides /\ ov_record_id o = pr_record_id r
         /\ (forall o', In o' overrides -> ov_record_id o' = pr_record_id r ->
             ts_le (updated_at o') (updated_at o) = true)
         /\ final_amount_of sorted r = round2 (override_amount o))
      /\ ((forall o, In o overrides -> ov_record_id o <> pr_record_id r) ->
          final_amount_of sorted r = round2 (row_pred_amount r))
      /\ ((0 <= parse_amount_wan (pr_amount r))%Q -> (0 <= pr_decay r)%Q ->
          (forall o, In o overrides -> ov_record_id o = pr_record_id r ->
           (0 <= override_amount o)%Q) ->
          (0 <= final_amount_of sorted r)%Q)).
Proof.
  split; [intros ov; split; [apply sort_overrides_perm | apply sort_overrides_sorted] |].
  split; [intros rid rate decay; unfold row_pred_amount, system_pred_amount; simpl;
          rewrite !Qmult_0_l; reflexivity |].
  split; [intros rid amount decay; unfold row_pred_amount, system_pred_amount; simpl;
          unfold Qdiv; rewrite Qmult_0_l, Qmult_0_r, Qmult_0_l; reflexivity |].
  intros overrides sorted r Hp Hs.
  assert (Hss : StronglySorted ov_le sorted).
  { apply Sorted_StronglySorted; [| exact Hs].
    intros a b c; unfold ov_le; apply ts_le_trans. }
  assert (Hin : forall o, In o overrides <-> In o sorted)
    by (intros o; split; [apply Permutation_in, Hp | apply Permutation_in, Permutation_sym, Hp]).
  split; [| split].
  - intros [x [Hx Hxr]].
    destruct (latest_override_max (pr_record_id r) sorted Hss
                (ex_intro _ x (conj (proj1 (Hin x) Hx) Hxr)))
      as [m [Hm [Hmr [Hml Hmax]]]].
    exists m; split; [apply Hin, Hm | split; [exact Hmr | split]].
    + intros o' Ho' Ho'r; exact (Hmax o' (proj1 (Hin o') Ho') Ho'r).
    + unfold final_amount_of; rewrite Hml; reflexivity.
  - intros Hno; unfold final_amount_of.
    rewrite latest_override_none; [reflexivity |].
    intros o Ho; apply Hno, Hin, Ho.
  - intros Ha Hd Hov; unfold final_amount_of; apply round2_nonneg.
    destruct (latest_override_amount (pr_record_id r) sorted) as [a |] eqn:E.
    + destruct (latest_override_in _ _ _ E) as [o [Ho [Hor <-]]].
      apply Hov; [apply Hin, Ho | exact Hor].
    + apply row_pred_amount_nonneg; assumption.
Qed.

Lemma final_amount_resolution_witness :
  final_amount_of (sort_overrides Samples.sample_overrides)
    (mkPRow "rec1" (Some "100"%string) "50" 1) = round2 20
  /\ (0 <= final_amount_of (sort_overrides Samples.sample_overrides)
             (mkPRow "rec1" (Some "100"%string) "50" 1))%Q.
Proof.
  pose proof (proj2 (proj2 (proj2 final_amount_resolution))
                Samples.sample_overrides (sort_overrides Samples.sample_overrides)
                (mkPRow "rec1" (Some "100"%string) "50" 1)
                (sort_overrides_perm _) (sort_overrides_sorted _)) as [Hmax [_ Hnn]].
  split.
  - destruct (Hmax (ex_intro _ (mkOverride "rec1" 20 None)
                     (conj (or_intror (or_introl eq_refl)) eq_refl)))
      as [o [Ho [Hor [Hle ->]]]].
    assert (Hlatest := Hle (mkOverride "rec1" 20 None)
                         (or_intror (or_introl eq_refl)) eq_refl).
    simpl in Ho; unfold Samples.sample_overrides in Ho.
    destruct Ho as [<- | [<- | [<- | [<- | []]]]];
      solve [reflexivity | vm_compute in Hlatest; discriminate Hlatest
            | vm_compute in Hor; discriminate Hor].
  - apply Hnn.
    + vm_compute; discriminate.
    + vm_compute; discriminate.
    + intros o Ho _; simpl in Ho; unfold Samples.sample_overrides in Ho.
      destruct Ho as [<- | [<- | [<- | [<- | []]]]]; vm_compute; discriminate.
Defined.

(** C1 as stated fails: an amount cell ["-100"] keeps its sign through
    [_parse_amount_wan], and with no override the final amount is
    [-100 × 50/100 × 1 = -50 < 0]. *)
Lemma final_amount_negative_counterexample :
  parse_amount_wan (pr_amount Samples.negative_amount_row) == (-100)%Q
  /\ final_amount_of [] Samples.negative_amount_row == (-50)%Q
  /\ ~ (0 <= final_amount_of [] Samples.negative_amount_row)%Q.
Proof.
  split; [vm_compute; reflexivity | split; [vm_compute; reflexivity |]].
  vm_compute; intros H; apply H; reflexivity.
Qed.

(** *** Time decay factor *)

Lemma exp_nonpos_le_1 x : (x <= 0)%R -> (0 < exp x <= 1)%R.
Proof.
  intros Hx; split; [apply exp_pos |].
  destruct (Rle_lt_or_eq_dec x 0 Hx) as [Hlt | ->].
  - rewrite <- exp_0; left; apply exp_increasing, Hlt.
  - rewrite exp_0; apply Rle_refl.
Qed.

Lemma Q2R_nonneg q : (0 <= q)%Q -> (0 <= Q2R q)%R.
Proof.
  intros H; apply Rle_trans with (Q2R 0); [| apply Qle_Rle, H].
  unfold Q2R; simpl; rewrite Rmult_0_l; apply Rle_refl.
Qed.

Lemma delta_months_nonneg base v : (0 <= delta_months base v)%Q.
Proof.
  destruct v as [ts |]; simpl; [apply Q.le_max_l | apply Qle_refl].
Qed.

Lemma pick_column_order t c :
  pick_column t date_col_order = Some c ->
  usable t c = true
  /\ (c <> Expected -> usable t Expected = false)
  /\ (c = Start -> usable t Delivery = false).
Proof.
  unfold date_col_order; simpl.
  destruct (usable t Expected) eqn:E1;
    [intros H; injection H as <-; split; [exact E1 | split; [congruence | discriminate]] |].
  destruct (usable t Delivery) eqn:E2;
    [intros H; injection H as <-; split; [exact E2 | split; [auto | discriminate]] |].
  destruct (usable t Start) eqn:E3; [| discriminate].
  intros H; injection H as <-; auto.
Qed.

(** C4 (amended): the factors form one column, one per row.  They are all
    exactly 1 when [decay_lambda <= 0] or when no date column is usable.
    Otherwise the column is chosen once for the whole frame: the first of
    expected-completion, delivery and start dates that exists and has a
    non-null value in some row.  Each row's factor is then
    [exp(-decay_lambda * max(0, days/30))] on its own value in that column,
    which lies in [(0,1]], and exactly 1 when that value is null, even if
    another date column holds a date for the row. *)
Theorem time_decay_factor_spec :
  forall (decay_lambda : Q) (base_dt : Z) (t : dtable),
    length (compute_time_decay_factor decay_lambda base_dt t) = length (rows t)
    /\ ((decay_lambda <= 0)%Q ->
        compute_time_decay_factor decay_lambda base_dt t = map (fun _ => 1%R) (rows t))
    /\ (pick_column t date_col_order = None ->
        compute_time_decay_factor decay_lambda base_dt t = map (fun _ => 1%R) (rows t))
    /\ (forall c : date_col,
        (0 < decay_lambda)%Q -> pick_column t date_col_order = Some c ->
        (usable t c = true
         /\ (c <> Expected -> usable t Expected = false)
         /\ (c = Start -> usable t Delivery = false))
        /\ compute_time_decay_factor decay_lambda base_dt t
           = map (fun r => exp (- (Q2R decay_lambda * Q2R (delta_months base_dt (cell c r)))))
                 (rows t)
        /\ (forall r, cell c r = None ->
            exp (- (Q2R decay_lambda * Q2R (delta_months base_dt (cell c r)))) = 1%R)
        /\ (forall r, (0 < exp (- (Q2R decay_lambda * Q2R (delta_months base_dt (cell c r))))
                         <= 1)%R)).
Proof.
  intros lam base t.
  unfold compute_time_decay_factor.
  split; [destruct (rows t) as [| r0 rs] eqn:Er; [reflexivity |];
          rewrite <- Er; destruct (Qle_bool lam 0); [apply length_map |];
          destruct (pick_column t date_col_order); apply length_map |].
  split; [intros Hle; apply Qle_bool_iff in Hle; rewrite Hle;
          destruct (rows t); reflexivity |].
  split; [intros Hn; rewrite Hn; destruct (Qle_bool lam 0), (rows t); reflexivity |].
  intros c Hpos Hc.
  split; [exact (pick_column_order t c Hc) |].
  assert (Hnle : Qle_bool lam 0 = false).
  { destruct (Qle_bool lam 0) eqn:E; [| reflexivity].
    apply Qle_bool_iff in E; exfalso; apply (Qlt_not_le _ _ Hpos E). }
  split; [| split].
  - rewrite Hnle, Hc; destruct (rows t) as [| r0 rs] eqn:Er; [reflexivity |].
    apply map_ext; intros r; rewrite Q2R_mult, Q2R_opp, Ropp_mult_distr_l; reflexivity.
  - intros r Hr; rewrite Hr; simpl; unfold Q2R at 2; simpl.
    rewrite Rmult_0_l, Rmult_0_r, Ropp_0; apply exp_0.
  - intros r; apply exp_nonpos_le_1.
    rewrite <- Ropp_0; apply Ropp_le_contravar.
    apply Rmult_le_pos.
    + apply Q2R_nonneg, Qlt_le_weak, Hpos.
    + apply Q2R_nonneg, delta_months_nonneg.
Qed.

Lemma time_decay_factor_spec_witness :
  pick_column Samples.two_dated_rows date_col_order = Some Expected
  /\ nth 1 (compute_time_decay_factor (1 # 20) Samples.decay_base Samples.two_dated_rows) 0%R
     = 1%R.
Proof.
  assert (Hpick : pick_column Samples.two_dated_rows date_col_order = Some Expected)
    by reflexivity.
  split; [exact Hpick |].
  assert (Hpos : (0 < 1 # 20)%Q) by reflexivity.
  destruct (proj2 (proj2 (proj2 (time_decay_factor_spec (1 # 20) Samples.decay_base
                                   Samples.two_dated_rows))) Expected Hpos Hpick)
    as [_ [Heq [Hnull _]]].
  rewrite Heq; exact (Hnull Samples.late_delivery_row eq_refl).
Defined.

(** C4 as stated fails: in a frame where some row has an expected-completion
    date, a row with only a delivery date 60 days ahead gets the factor 1
    (its expected-completion cell is null), while the row-wise fallback of
    the specification gives [exp(-(1/20) * 2) < 1]. *)
Lemma time_decay_row_fallback_counterexample :
  row_milestone Samples.two_dated_rows Samples.late_delivery_row
    = Some (Samples.decay_base + 60 * 86400)
  /\ nth 1 (compute_time_decay_factor (1 # 20) Samples.decay_base Samples.two_dated_rows) 0%R
     = 1%R
  /\ (spec_decay_factor (1 # 20) Samples.decay_base Samples.two_dated_rows
        Samples.late_delivery_row < 1)%R.
Proof.
  split; [reflexivity | split].
  - unfold compute_time_decay_factor.
    replace (Qle_bool (1 # 20) 0) with false by reflexivity.
    replace (pick_column Samples.two_dated_rows date_col_order) with (Some Expected)
      by reflexivity.
    cbn [nth map rows Samples.two_dated_rows].
    rewrite (Qeq_eqR _ 0) by reflexivity.
    unfold Q2R; simpl; rewrite Rmult_0_l; apply exp_0.
  - unfold spec_decay_factor.
    replace (Qle_bool (1 # 20) 0) with false by reflexivity.
    replace (row_milestone Samples.two_dated_rows Samples.late_delivery_row)
      with (Some (Samples.decay_base + 60 * 86400)) by reflexivity.
    rewrite <- exp_0; apply exp_increasing.
    apply Rlt_le_trans with (Q2R 0).
    + apply Qlt_Rlt; vm_compute; reflexivity.
    + unfold Q2R; simpl; rewrite Rmult_0_l; apply Rle_refl.
Qed.

(* ------------------------------------------------------------------ *)
(** ** Summaries by key: sorting and partition lemmas *)

Lemma insert_key_perm k l : Permutation (k :: l) (insert_key k l).
Proof.
  induction l as [| x l IH]; simpl; [reflexivity |].
  destruct (String.leb k x); [reflexivity |].
  eapply perm_trans; [apply perm_swap | apply perm_skip, IH].
Qed.

Lemma sort_keys_perm l : Permutation l (sort_keys l).
Proof.
  induction l as [| k l IH]; simpl; [reflexivity |].
  eapply perm_trans; [apply perm_skip, IH | apply insert_key_perm].
Qed.

Lemma str_leb_flip a b : String.leb a b = false -> String.leb b a = true.
Proof. intros H; destruct (String.leb_total a b); congruence. Qed.

Lemma insert_key_sorted k l :
  Sorted (fun a b => String.leb a b = true) l ->
  Sorted (fun a b => String.leb a b = true) (insert_key k l).
Proof.
  induction 1 as [| x l Hs IH Hhd]; simpl; [repeat constructor |].
  destruct (String.leb k x) eqn:E.
  - constructor; [constructor; assumption | constructor; exact E].
  - constructor; [exact IH |].
    destruct l as [| y l]; simpl.
    + constructor; apply str_leb_flip, E.
    + destruct (String.leb k y).
      * constructor; apply str_leb_flip, E.
      * inversion Hhd; constructor; assumption.
Qed.

Lemma sort_keys_sorted l : Sorted (fun a b => String.leb a b = true) (sort_keys l).
Proof. induction l; simpl; [constructor | apply insert_key_sorted; assumption]. Qed.

Lemma insert_desc_perm r l : Permutation (r :: l) (insert_desc r l).
Proof.
  induction l as [| x l IH]; simpl; [reflexivity |].
  destruct (Qle_bool (g_total x) (g_total r)); [reflexivity |].
  eapply perm_trans; [apply perm_swap | apply perm_skip, IH].
Qed.

Lemma sort_desc_perm l : Permutation l (sort_desc l).
Proof.
  induction l as [| r l IH]; simpl; [reflexivity |].
  eapply perm_trans; [apply perm_skip, IH | apply insert_desc_perm].
Qed.

Lemma Qle_bool_false_flip a b : Qle_bool a b = false -> (b <= a)%Q.
Proof.
  intros H; apply Qlt_le_weak, Qnot_le_lt; intros H'; apply Qle_bool_iff in H'; congruence.
Qed.

Lemma insert_desc_sorted r l :
  Sorted (fun a b => (g_total b <= g_total a)%Q) l ->
  Sorted (fun a b => (g_total b <= g_total a)%Q) (insert_desc r l).
Proof.
  induction 1 as [| x l Hs IH Hhd]; simpl; [repeat constructor |].
  destruct (Qle_bool (g_total x) (g_total r)) eqn:E.
  - constructor; [constructor; assumption | constructor; apply Qle_bool_iff, E].
  - constructor; [exact IH |].
    destruct l as [| y l]; simpl.
    + constructor; apply Qle_bool_false_flip, E.
    + destruct (Qle_bool (g_total y) (g_total r)).
      * constructor; apply Qle_bool_false_flip, E.
      * inversion Hhd; constructor; assumption.
Qed.

Lemma sort_desc_sorted l : Sorted (fun a b => (g_total b <= g_total a)%Q) (sort_desc l).
Proof. induction l; simpl; [constructor | apply insert_desc_sorted; assumption]. Qed.

Lemma sum_indicator_str (x : string) (a : Q) (ks : list string) :
  NoDup ks -> In x ks ->
  (sum_q (map (fun k => if String.eqb x k then a else 0%Q) ks) == a)%Q.
Proof.
  induction 1 as [| k ks Hnin Hnd IH]; simpl; [contradiction |].
  intros [-> | Hin].
  - assert (Hrest : (sum_q (map (fun k0 => if String.eqb x k0 then a else 0%Q) ks)
                     == 0)%Q).
    { clear IH Hnd. induction ks as [| k' ks IHk]; simpl; [reflexivity |].
      destruct (String.eqb_spec x k') as [E | E].
      - subst; exfalso; apply Hnin; left; reflexivity.
      - rewrite IHk; [ring |]. intro; apply Hnin; right; assumption. }
    rewrite String.eqb_refl, Hrest; ring.
  - destruct (String.eqb_spec x k) as [E | E].
    + subst; contradiction.
    + rewrite IH by assumption; ring.
Qed.

Lemma group_totals_sum (key : entry -> string) (es : list entry) (ks : list string) :
  NoDup ks -> (forall e, In e es -> In (key e) ks) ->
  (sum_q (map (fun k => sum_q (map cf_amount (group_members key k es))) ks)
   == sum_q (map cf_amount es))%Q.
Proof.
  intros Hnd; induction es as [| e es IH]; intros Hcov; simpl.
  - unfold group_members; simpl. clear Hnd Hcov.
    induction ks as [| k ks IHk]; simpl; [reflexivity | rewrite IHk; ring].
  - transitivity (sum_q (map (fun k => if String.eqb (key e) k
                                        then cf_amount e else 0%Q) ks)
                  + sum_q (map (fun k => sum_q (map cf_amount (group_members key k es))) ks))%Q.
    + clear IH Hcov Hnd. unfold group_members.
      induction ks as [| k ks IHk]; simpl; [ring |].
      destruct (String.eqb (key e) k); simpl; rewrite IHk; ring.
    + rewrite sum_indicator_str, IH; [reflexivity | | assumption |].
      * intros e' He'; apply Hcov; right; assumption.
      * apply Hcov; left; reflexivity.
Qed.

Lemma nodup_length_le (A : Type) (dec : forall x y : A, {x = y} + {x <> y}) (l : list A) :
  (length (nodup dec l) <= length l)%nat.
Proof. induction l as [| x l IH]; simpl; [lia | destruct (in_dec dec x l); simpl; lia]. Qed.

Lemma group_sum_keys key es :
  map g_key (group_sum key es) = sort_keys (nodup string_dec (map key es)).
Proof. unfold group_sum; rewrite map_map; simpl; apply map_id. Qed.

Lemma group_sum_spec key es :
  NoDup (map g_key (group_sum key es))
  /\ (forall k, In k (map g_key (group_sum key es)) <-> exists e, In e es /\ key e = k)
  /\ (forall r, In r (group_sum key es) ->
        g_total r = sum_q (map cf_amount (group_members key (g_key r) es))
        /\ g_count r
           = length (nodup string_dec (map cf_project (group_members key (g_key r) es)))
        /\ (1 <= g_count r)%nat)
  /\ (sum_q (map g_total (group_sum key es)) == sum_q (map cf_amount es))%Q.
Proof.
  assert (Hin : forall k, In k (map g_key (group_sum key es))
                          <-> exists e, In e es /\ key e = k).
  { intros k; rewrite group_sum_keys; split.
    - intros H; apply (Permutation_in _ (Permutation_sym (sort_keys_perm _))) in H.
      apply nodup_In, in_map_iff in H; destruct H as [e [He1 He2]]; exists e; auto.
    - intros [e [He1 He2]].
      apply (Permutation_in _ (sort_keys_perm _)), nodup_In, in_map_iff; exists e; auto. }
  split; [| split; [exact Hin | split]].
  - rewrite group_sum_keys.
    eapply Permutation_NoDup; [apply sort_keys_perm | apply NoDup_nodup].
  - intros r Hr.
    assert (Hrk : In (g_key r) (map g_key (group_sum key es))) by (apply in_map; exact Hr).
    unfold group_sum in Hr; apply in_map_iff in Hr; destruct Hr as [k [<- _]]; simpl.
    split; [reflexivity | split; [reflexivity |]].
    simpl in Hrk; apply Hin in Hrk; destruct Hrk as [e [He Hek]].
    destruct (nodup string_dec (map cf_project (group_members key k es))) eqn:E.
    + exfalso.
      assert (Hm : In (cf_project e)
                      (nodup string_dec (map cf_project (group_members key k es)))).
      { apply nodup_In, in_map, filter_In; split; [exact He | apply String.eqb_eq; exact Hek]. }
      rewrite E in Hm; destruct Hm.
    + simpl; lia.
  - unfold group_sum; rewrite map_map; simpl.
    rewrite <- (sum_q_perm _ _ _ _ (sort_keys_perm (nodup string_dec (map key es)))).
    apply group_totals_sum; [apply NoDup_nodup |].
    intros e He; apply nodup_In, in_map; exact He.
Qed.

Lemma stage_entries_facts p cfg e :
  In e (stage_entries p cfg) ->
  cf_project e = customer p /\ cf_line e = business_line p
  /\ cf_type e = fst (fst (fst cfg))
  /\ (0 < cf_amount e)%Q /\ (0 < cf_ratio e)%Q /\ cf_month e = format_to_month (cf_date e).
Proof.
  destruct cfg as [[[nm rc] tc] fb]; unfold stage_entries.
  destruct (qlt 0 (rc p)) eqn:E1; [| intros []].
  destruct (stage_payment_date p (nm, rc, tc, fb)) as [d |]; [| intros []].
  destruct (qlt 0 (final_amount p * (rc p / 100))) eqn:E2; [| intros []].
  intros [<- | []]; simpl.
  apply qlt_true in E1, E2; repeat split; assumption.
Qed.

Lemma dataframe_entry_facts ps e :
  In e (calculate_dataframe_cash_flow ps) ->
  exists p, In p ps /\ cf_project e = customer p /\ cf_line e = business_line p
    /\ In (cf_type e) merge_stages
    /\ (0 < cf_amount e)%Q /\ (0 < cf_ratio e)%Q /\ cf_month e = format_to_month (cf_date e).
Proof.
  unfold calculate_dataframe_cash_flow; rewrite in_flat_map; intros [p [Hp He]].
  destruct (Qeq_bool (final_amount p) 0); [destruct He |].
  unfold calculate_single_project_cash_flow in He; rewrite in_flat_map in He.
  destruct He as [cfg [Hcfg He]].
  destruct (stage_entries_facts p cfg e He) as (H1 & H2 & H3 & H4 & H5 & H6).
  exists p; repeat split; try assumption.
  rewrite H3; unfold merge_stages.
  simpl in Hcfg; destruct Hcfg as [<- | [<- | [<- | [<- | []]]]]; simpl; tauto.
Qed.

Lemma sum_q_pos (l : list Q) :
  (forall x, In x l -> (0 < x)%Q) -> l <> [] -> (0 < sum_q l)%Q.
Proof.
  induction l as [| x l IH]; intros Hpos Hne; [contradiction |]; simpl.
  destruct l as [| y l].
  - simpl; rewrite Qplus_0_r; apply Hpos; left; reflexivity.
  - apply Qplus_lt_le_compat with (x := 0%Q) (y := x) (z := 0%Q); [ | apply Qlt_le_weak ].
    + apply Hpos; left; reflexivity.
    + apply IH; [intros z Hz; apply Hpos; right; exact Hz | discriminate].
Qed.

Lemma month_leb_flip a b : month_leb a b = false -> month_leb b a = true.
Proof.
  destruct a as [y1 m1], b as [y2 m2]; unfold month_leb; simpl.
  intros H; apply Bool.orb_false_iff in H; destruct H as [H1 H2].
  apply Z.ltb_ge in H1.
  destruct (Z.eqb_spec y1 y2) as [E | E]; simpl in H2.
  - apply Z.leb_gt in H2; subst.
    rewrite Z.ltb_irrefl, Z.eqb_refl; simpl; apply Z.leb_le; lia.
  - apply Bool.orb_true_iff; left; apply Z.ltb_lt; lia.
Qed.

Lemma insert_month_sorted x l :
  Sorted (fun a b => month_leb a b = true) l ->
  Sorted (fun a b => month_leb a b = true) (insert_month x l).
Proof.
  induction 1 as [| y l Hs IH Hhd]; simpl; [repeat constructor |].
  destruct (month_leb x y) eqn:E.
  - constructor; [constructor; assumption | constructor; exact E].
  - constructor; [exact IH |].
    destruct l as [| z l]; simpl.
    + constructor; apply month_leb_flip, E.
    + destruct (month_leb x z).
      * constructor; apply month_leb_flip, E.
      * inversion Hhd; constructor; assumption.
Qed.

Lemma sort_months_sorted l : Sorted (fun a b => month_leb a b = true) (sort_months l).
Proof. induction l; simpl; [constructor | apply insert_month_sorted; assumption]. Qed.

(** X1: the business-line summary has one row per business line present in
    the entries and no other; each row's total is the sum of the amounts of
    that line, its count is the number of distinct project names of that
    line and at least 1; the rows come in non-increasing order of total and
    the totals add up to the sum of all amounts. *)
Theorem business_line_summary_spec (es : list entry) :
  let s := calculate_business_line_summary es in
  NoDup (map g_key s)
  /\ (forall k, In k (map g_key s) <-> exists e, In e es /\ cf_line e = k)
  /\ (forall r, In r s ->
        g_total r = sum_q (map cf_amount (group_members cf_line (g_key r) es))
        /\ g_count r
           = length (nodup string_dec (map cf_project (group_members cf_line (g_key r) es)))
        /\ (1 <= g_count r)%nat)
  /\ Sorted (fun a b => (g_total b <= g_total a)%Q) s
  /\ (sum_q (map g_total s) == sum_q (map cf_amount es))%Q.
Proof.
  cbv zeta; unfold calculate_business_line_summary.
  destruct es as [| e0 es0] eqn:Ees.
  - split; [constructor | split; [| split; [intros r [] | split; [constructor | reflexivity]]]].
    intros k; split; [intros [] | intros [e [[] _]]].
  - rewrite <- Ees.
    pose proof (sort_desc_perm (group_sum cf_line es)) as P.
    destruct (group_sum_spec cf_line es) as (Hnd & Hin & Hrow & Hsum).
    split; [| split; [| split; [| split]]].
    + eapply Permutation_NoDup; [apply Permutation_map, P | exact Hnd].
    + intros k; rewrite <- Hin; split; apply Permutation_in;
        [apply Permutation_map, Permutation_sym, P | apply Permutation_map, P].
    + intros r Hr; apply Hrow; eapply Permutation_in; [apply Permutation_sym, P | exact Hr].
    + apply sort_desc_sorted.
    + rewrite <- (sum_q_perm _ _ _ _ P); exact Hsum.
Qed.

(** X2: on the cash flows of a project table, the stage summary has at
    most one row per stage, each keyed by one of the four stage names
    首付款, 次付款, 尾款, 质保金 (so at most 4 rows), in ascending key
    order; each row has a positive total, the sum of the amounts of its
    stage, and a count of at least 1; the totals add up to the sum of all
    amounts. *)
Theorem stage_summary_spec (ps : list project) :
  let es := calculate_dataframe_cash_flow ps in
  let s := calculate_stage_summary es in
  NoDup (map g_key s)
  /\ (length s <= 4)%nat
  /\ Sorted (fun a b => String.leb a b = true) (map g_key s)
  /\ (forall r, In r s ->
        In (g_key r) merge_stages
        /\ g_total r = sum_q (map cf_amount (group_members cf_type (g_key r) es))
        /\ (0 < g_total r)%Q
        /\ (1 <= g_count r)%nat)
  /\ (sum_q (map g_total s) == sum_q (map cf_amount es))%Q.
Proof.
  cbv zeta; unfold calculate_stage_summary.
  destruct (calculate_dataframe_cash_flow ps) as [| e0 es0] eqn:Ees.
  - split; [constructor | split; [simpl; lia | split; [constructor |
      split; [intros r [] | reflexivity]]]].
  - rewrite <- Ees.
    set (es := calculate_dataframe_cash_flow ps) in *.
    destruct (group_sum_spec cf_type es) as (Hnd & Hin & Hrow & Hsum).
    assert (Hkey : forall r, In r (group_sum cf_type es) -> In (g_key r) merge_stages).
    { intros r Hr.
      destruct (proj1 (Hin (g_key r)) (in_map _ _ _ Hr)) as [e [He <-]].
      destruct (dataframe_entry_facts ps e He) as (p & _ & _ & _ & Ht & _); exact Ht. }
    split; [exact Hnd | split; [| split; [| split]]].
    + rewrite <- (length_map g_key).
      change 4%nat with (length merge_stages).
      apply NoDup_incl_length; [exact Hnd |].
      intros k Hk; apply in_map_iff in Hk; destruct Hk as [r [<- Hr]]; apply Hkey, Hr.
    + rewrite group_sum_keys; apply sort_keys_sorted.
    + intros r Hr; destruct (Hrow r Hr) as (Ht & _ & Hc).
      split; [apply Hkey, Hr | split; [exact Ht | split; [| exact Hc]]].
      rewrite Ht; apply sum_q_pos.
      * intros x Hx; apply in_map_iff in Hx; destruct Hx as [e [<- He]].
        apply filter_In in He.
        destruct (dataframe_entry_facts ps e (proj1 He)) as (p & _ & _ & _ & _ & Ha & _).
        exact Ha.
      * destruct (proj1 (Hin (g_key r)) (in_map _ _ _ Hr)) as [e [He Hek]].
        intros Hnil; apply map_eq_nil in Hnil.
        assert (Hm : In e (group_members cf_type (g_key r) es)).
        { apply filter_In; split; [exact He | apply String.eqb_eq; exact Hek]. }
        rewrite Hnil in Hm; destruct Hm.
    + exact Hsum.
Qed.

(** X7: the monthly summary lists each month at most once, in ascending
    month order; every entry's month appears, and only months of entries
    appear; each row counts at least 1 and at most as many projects as the
    month has entries. *)
Theorem monthly_summary_spec (es : list entry) :
  let s := calculate_monthly_summary es in
  NoDup (map ms_month s)
  /\ Sorted (fun a b => month_leb a b = true) (map ms_month s)
  /\ (forall m, In m (map ms_month s) <-> exists e, In e es /\ cf_month e = m)
  /\ (forall r, In r s -> (1 <= ms_count r <= length (entries_in (ms_month r) es))%nat).
Proof.
  cbv zeta; unfold calculate_monthly_summary.
  destruct es as [| e0 es0] eqn:Ees.
  - split; [constructor | split; [constructor | split; [| intros r []]]].
    intros m; split; [intros [] | intros [e [[] _]]].
  - rewrite <- Ees.
    assert (Hk : map ms_month (map (fun k => mkMonthRow k (month_total k es)
                   (length (nodup string_dec (map cf_project (entries_in k es)))))
                   (sort_months (nodup month_eq_dec (map cf_month es))))
                 = sort_months (nodup month_eq_dec (map cf_month es))).
    { rewrite map_map; apply map_id. }
    assert (Hin : forall m, In m (sort_months (nodup month_eq_dec (map cf_month es)))
                            <-> exists e, In e es /\ cf_month e = m).
    { intros m; split.
      - intros H; apply (Permutation_in _ (sort_months_perm _)) in H.
        apply nodup_In, in_map_iff in H; destruct H as [e [He1 He2]]; exists e; auto.
      - intros [e [He1 He2]].
        apply (Permutation_in _ (Permutation_sym (sort_months_perm _))), nodup_In, in_map_iff.
        exists e; auto. }
    rewrite Hk; split; [| split; [apply sort_months_sorted | split; [exact Hin |]]].
    + eapply Permutation_NoDup; [apply Permutation_sym, sort_months_perm | apply NoDup_nodup].
    + intros r Hr; apply in_map_iff in Hr; destruct Hr as [k [<- Hkin]]; simpl.
      split.
      * apply Hin in Hkin; destruct Hkin as [e [He Hek]].
        destruct (nodup string_dec (map cf_project (entries_in k es))) eqn:E; [| simpl; lia].
        exfalso.
        assert (Hm : In (cf_project e) (nodup string_dec (map cf_project (entries_in k es)))).
        { apply nodup_In, in_map, filter_In; split; [exact He | apply month_eqb_iff; exact Hek]. }
        rewrite E in Hm; destruct Hm.
      * rewrite <- (length_map cf_project (entries_in k es)); apply nodup_length_le.
Qed.

(** X9: every entry of the cash flows of a project table comes from one of
    its projects (project name = customer, same business line), has one of
    the four stage names as type, a positive amount, a positive ratio, and
    its month is the year-month of its payment date. *)
Theorem dataframe_cash_flow_entries (ps : list project) (e : entry) :
  In e (calculate_dataframe_cash_flow ps) ->
  exists p, In p ps /\ cf_project e = customer p /\ cf_line e = business_line p
    /\ In (cf_type e) merge_stages
    /\ (0 < cf_amount e)%Q /\ (0 < cf_ratio e)%Q /\ cf_month e = format_to_month (cf_date e).
Proof. apply dataframe_entry_facts. Qed.

Lemma dataframe_cash_flow_entries_witness :
  let ps := [Samples.dated_project] in
  let e := hd (mkEntry EmptyString EmptyString EmptyString 0 (mkDate 0 0 0) (0, 0) 0)
              (calculate_dataframe_cash_flow ps) in
  In e (calculate_dataframe_cash_flow ps)
  /\ exists p, In p ps /\ cf_project e = customer p /\ cf_line e = business_line p
    /\ In (cf_type e) merge_stages
    /\ (0 < cf_amount e)%Q /\ (0 < cf_ratio e)%Q /\ cf_month e = format_to_month (cf_date e).
Proof.
  intros ps e.
  assert (H : In e (calculate_dataframe_cash_flow ps)) by (vm_compute; left; reflexivity).
  split; [exact H | exact (dataframe_cash_flow_entries ps e H)].
Defined.

(* ------------------------------------------------------------------ *)
(** ** Runway: the minimum balance *)

Lemma fold_min_bound (l : list Q) : forall a,
  (fold_left Qmin l a <= a)%Q /\ (forall x, In x l -> (fold_left Qmin l a <= x)%Q).
Proof.
  induction l as [| y l IH]; intros a; simpl.
  - split; [apply Qle_refl | intros x []].
  - destruct (IH (Qmin a y)) as [H1 H2]; split.
    + eapply Qle_trans; [exact H1 | apply Q.le_min_l].
    + intros x [<- | Hx]; [eapply Qle_trans; [exact H1 | apply Q.le_min_r] | apply H2, Hx].
Qed.

Lemma fold_min_mem (l : list Q) : forall a,
  fold_left Qmin l a = a \/ In (fold_left Qmin l a) l.
Proof.
  induction l as [| y l IH]; intros a; simpl; [left; reflexivity |].
  assert (Hm : Qmin a y = a \/ Qmin a y = y).
  { unfold Qmin, GenericMinMax.gmin; destruct (Qcompare a y); auto. }
  destruct (IH (Qmin a y)) as [E | E].
  - rewrite E; destruct Hm as [Hm | Hm]; rewrite Hm; auto.
  - right; right; exact E.
Qed.

Lemma min_balance_spec (tbl : list rw_row) (init : Q) :
  (forall i, (i < length tbl)%nat -> (min_balance tbl init <= rw_balance (nth i tbl drw))%Q)
  /\ (tbl <> [] ->
      exists i, (i < length tbl)%nat /\ min_balance tbl init = rw_balance (nth i tbl drw)).
Proof.
  destruct tbl as [| r rest]; simpl.
  - split; [intros i Hi; lia | intros H; contradiction].
  - destruct (fold_min_bound (map rw_balance rest) (rw_balance r)) as [B1 B2].
    split.
    + intros [| i] Hi; [exact B1 |].
      apply B2, in_map, nth_In; simpl in Hi; lia.
    + intros _.
      destruct (fold_min_mem (map rw_balance rest) (rw_balance r)) as [E | E].
      * exists 0%nat; split; [lia | exact E].
      * apply In_nth with (d := rw_balance drw) in E; destruct E as [i [Hi Ei]].
        rewrite length_map in Hi; exists (S i); split; [lia |].
        rewrite <- Ei; apply map_nth.
Qed.

Lemma count_runway_min (tbl : list rw_row) (init : Q) :
  tbl <> [] ->
  ((count_runway tbl < length tbl)%nat <-> (min_balance tbl init <= 0)%Q).
Proof.
  intros Hne.
  destruct (count_runway_spec tbl) as (C1 & C2 & C3).
  destruct (min_balance_spec tbl init) as [M1 M2].
  split.
  - intros Hlt; eapply Qle_trans; [apply M1, Hlt | apply C3, Hlt].
  - intros Hmin; destruct (M2 Hne) as [i [Hi Ei]].
    destruct (Nat.lt_ge_cases (count_runway tbl) (length tbl)) as [Hc | Hc]; [exact Hc |].
    exfalso; apply (Qlt_not_le 0 (rw_balance (nth i tbl drw))).
    + apply C2; lia.
    + rewrite <- Ei; exact Hmin.
Qed.

Lemma runway_shape_nonempty (es : list entry) (init e : Q) (n : nat) (now : date) :
  es <> [] ->
  calculate_runway es init e n now
  = mkRunway (count_runway (build_balances init e (forecast_cash_flow es n true now)))
      (min_balance (build_balances init e (forecast_cash_flow es n true now)) init)
      (build_balances init e (forecast_cash_flow es n true now)).
Proof.
  intros Hne; unfold calculate_runway; destruct es as [| e0 es0]; [contradiction |].
  destruct (forecast_cash_flow (e0 :: es0) n true now); reflexivity.
Qed.

(** X8: the runway table is empty exactly when there is no cash-flow data
    or the horizon is 0, and then the runway is 0 and the minimum balance is
    the initial cash. Otherwise the minimum balance is the smallest balance
    of the table: it is one of them and no balance is smaller; the runway is
    shorter than the table exactly when the minimum balance is <= 0. *)
Theorem runway_min_balance (es : list entry) (init e : Q) (n : nat) (now : date) :
  let r := calculate_runway es init e n now in
  let tbl := monthly_summary r in
  (tbl = [] <-> es = [] \/ n = 0%nat)
  /\ (tbl = [] -> runway_months r = 0%nat /\ min_cash_balance r = init)
  /\ (forall i, (i < length tbl)%nat -> (min_cash_balance r <= rw_balance (nth i tbl drw))%Q)
  /\ (tbl <> [] ->
      exists i, (i < length tbl)%nat /\ min_cash_balance r = rw_balance (nth i tbl drw))
  /\ (tbl <> [] -> ((runway_months r < length tbl)%nat <-> (min_cash_balance r <= 0)%Q)).
Proof.
  cbv zeta.
  destruct es as [| e0 es0].
  - cbn; split; [split; [left; reflexivity | reflexivity] | split; [split; reflexivity |]].
    split; [intros i Hi; lia | split; intros H; contradiction].
  - rewrite runway_shape_nonempty by discriminate.
    cbn [monthly_summary runway_months min_cash_balance].
    set (tbl := build_balances init e (forecast_cash_flow (e0 :: es0) n true now)).
    assert (Hl : length tbl = n).
    { unfold tbl; rewrite build_balances_length; apply forecast_length; discriminate. }
    destruct (min_balance_spec tbl init) as [M1 M2].
    split; [| split; [| split; [exact M1 | split; [exact M2 | apply count_runway_min]]]].
    + split.
      * intros H; right; rewrite <- Hl, H; reflexivity.
      * intros [H | H]; [discriminate |].
        destruct tbl; [reflexivity | simpl in Hl; lia].
    + intros H; rewrite H; split; reflexivity.
Qed.

(* ------------------------------------------------------------------ *)
(** ** Forecast without zero months *)

Lemma filter_forecast_cum (f : Z * Z -> Q) (ms : list (Z * Z)) : forall (acc : Q) (i : nat),
  (i < length (filter (fun r => negb (Qeq_bool (fc_amount r) 0)) (build_forecast acc f ms)))%nat ->
  (fc_cum (nth i (filter (fun r => negb (Qeq_bool (fc_amount r) 0)) (build_forecast acc f ms)) dfc)
   == acc + sum_q (map fc_amount
                    (firstn (S i) (filter (fun r => negb (Qeq_bool (fc_amount r) 0))
                                     (build_forecast acc f ms)))))%Q.
Proof.
  induction ms as [| m ms IH]; intros acc i; cbn [build_forecast filter fc_amount].
  - simpl; intros Hi; lia.
  - destruct (Qeq_bool (f m) 0) eqn:E; cbn [negb].
    + intros Hi; rewrite (IH (acc + f m)%Q i Hi).
      assert (E0 : (f m == 0)%Q) by (apply Qeq_bool_iff; exact E).
      assert (Hs : forall s, (acc + f m + s == acc + s)%Q) by (intros s; rewrite E0; ring).
      apply Hs.
    + destruct i as [| i]; intros Hi; cbn [nth firstn map fc_cum].
      * unfold sum_q; simpl; ring.
      * simpl in Hi; rewrite (IH (acc + f m)%Q i ltac:(lia)).
        unfold sum_q; simpl; ring.
Qed.

Lemma forecast_false_filter (es : list entry) (n : nat) (now : date) :
  forecast_cash_flow es n false now
  = filter (fun r => negb (Qeq_bool (fc_amount r) 0)) (forecast_cash_flow es n true now).
Proof. destruct es; reflexivity. Qed.

Lemma forecast_true_build (es : list entry) (n : nat) (now : date) :
  exists f ms, forecast_cash_flow es n true now = build_forecast 0 f ms.
Proof.
  destruct es as [| e0 es0]; [exists (fun _ => 0%Q), []; reflexivity |].
  eexists; eexists; reflexivity.
Qed.

(** X6: with [fill_zero_months=False] the forecast has at most
    [months_ahead] rows; each is a row of the full forecast and has a
    non-zero amount; the cumulative column of each kept row equals the sum of
    the amounts of the kept rows up to it, since the removed rows carry 0. *)
Theorem forecast_nonzero_rows (es : list entry) (n : nat) (now : date) :
  let fc := forecast_cash_flow es n false now in
  (length fc <= n)%nat
  /\ (forall r, In r fc -> In r (forecast_cash_flow es n true now) /\ ~ (fc_amount r == 0)%Q)
  /\ (forall i, (i < length fc)%nat ->
        (fc_cum (nth i fc dfc) == sum_q (map fc_amount (firstn (S i) fc)))%Q).
Proof.
  cbv zeta; rewrite forecast_false_filter.
  split; [| split].
  - destruct es as [| e0 es0]; [simpl; lia |].
    eapply Nat.le_trans; [apply filter_length_le |].
    rewrite forecast_length by discriminate; lia.
  - intros r Hr; apply filter_In in Hr; destruct Hr as [Hr Hz]; split; [exact Hr |].
    intros H; apply Qeq_bool_iff in H; rewrite H in Hz; discriminate.
  - destruct (forecast_true_build es n now) as (f & ms & ->).
    intros i Hi; rewrite (filter_forecast_cum f ms 0 i Hi); ring.
Qed.

(* ------------------------------------------------------------------ *)
(** ** Payment schedule of a project *)

Lemma sum_q_cons (x : Q) (l : list Q) : sum_q (x :: l) = (x + sum_q l)%Q.
Proof. reflexivity. Qed.

Lemma date_leb_flip a b : date_leb a b = false -> date_leb b a = true.
Proof.
  destruct a as [y1 m1 d1], b as [y2 m2 d2]; unfold date_leb; simpl; intros H.
  destruct (Z.lt_trichotomy y1 y2) as [Hy | [Hy | Hy]].
  - rewrite (proj2 (Z.ltb_lt y1 y2) Hy) in H; discriminate.
  - subst y2; rewrite Z.ltb_irrefl, Z.eqb_refl in *; simpl in *.
    destruct (Z.lt_trichotomy m1 m2) as [Hm | [Hm | Hm]].
    + rewrite (proj2 (Z.ltb_lt m1 m2) Hm) in H; discriminate.
    + subst m2; rewrite Z.ltb_irrefl, Z.eqb_refl in *; simpl in *.
      apply Z.leb_gt in H; apply Z.leb_le; lia.
    + rewrite (proj2 (Z.ltb_lt m2 m1) Hm); reflexivity.
  - rewrite (proj2 (Z.ltb_lt y2 y1) Hy); reflexivity.
Qed.

Lemma pay_date_le_flip a b : pay_date_le a b = false -> pay_date_le b a = true.
Proof.
  destruct a as [x |], b as [y |]; simpl; try discriminate; try reflexivity.
  apply date_leb_flip.
Qed.

Lemma insert_pay_perm r l : Permutation (r :: l) (insert_pay r l).
Proof.
  induction l as [| x l IH]; simpl; [reflexivity |].
  destruct (pay_date_le (pay_date r) (pay_date x)); [reflexivity |].
  eapply perm_trans; [apply perm_swap | apply perm_skip, IH].
Qed.

Lemma sort_pay_perm l : Permutation l (sort_pay l).
Proof.
  induction l as [| r l IH]; simpl; [reflexivity |].
  eapply perm_trans; [apply perm_skip, IH | apply insert_pay_perm].
Qed.

Lemma insert_pay_sorted r l :
  Sorted (fun a b => pay_date_le (pay_date a) (pay_date b) = true) l ->
  Sorted (fun a b => pay_date_le (pay_date a) (pay_date b) = true) (insert_pay r l).
Proof.
  induction 1 as [| x l Hs IH Hhd]; simpl; [repeat constructor |].
  destruct (pay_date_le (pay_date r) (pay_date x)) eqn:E.
  - constructor; [constructor; assumption | constructor; exact E].
  - constructor; [exact IH |].
    destruct l as [| y l]; simpl.
    + constructor; apply pay_date_le_flip, E.
    + destruct (pay_date_le (pay_date r) (pay_date y)).
      * constructor; apply pay_date_le_flip, E.
      * inversion Hhd; constructor; assumption.
Qed.

Lemma sort_pay_sorted l :
  Sorted (fun a b => pay_date_le (pay_date a) (pay_date b) = true) (sort_pay l).
Proof. induction l; simpl; [constructor | apply insert_pay_sorted; assumption]. Qed.

Lemma sorted_app_r (A : Type) (R : A -> A -> Prop) (l1 l2 : list A) :
  Sorted R (l1 ++ l2) -> Sorted R l2.
Proof.
  induction l1 as [| x l1 IH]; simpl; intros H; [exact H |].
  apply Sorted_inv in H; apply IH, H.
Qed.

Lemma sorted_pay_none_tail r l :
  Sorted (fun a b => pay_date_le (pay_date a) (pay_date b) = true) (r :: l) ->
  pay_date r = None -> forall r', In r' l -> pay_date r' = None.
Proof.
  revert r; induction l as [| x l IH]; intros r Hs Hr r' Hin; [destruct Hin |].
  apply Sorted_inv in Hs; destruct Hs as [Hs Hhd].
  apply HdRel_inv in Hhd; rewrite Hr in Hhd.
  destruct (pay_date x) as [d |] eqn:Ex; [discriminate |].
  destruct Hin as [<- | Hin]; [exact Ex | exact (IH x Hs Ex r' Hin)].
Qed.

Lemma schedule_rows_in (p : project) (r : pay_row) :
  In r (schedule_rows p)
  <-> exists cfg, In cfg stage_configs /\ (0 < cfg_ratio p cfg)%Q
      /\ r = mkPayRow (customer p) (business_line p) (fst (fst (fst cfg))) (cfg_ratio p cfg)
               (final_amount p * (cfg_ratio p cfg / 100))%Q (stage_payment_date p cfg)
               (final_amount p).
Proof.
  unfold schedule_rows; cbv zeta; rewrite in_flat_map; split.
  - intros [cfg [Hc Hr]]; exists cfg; split; [exact Hc |].
    destruct cfg as [[[nm rc] tc] fb]; cbv beta iota in Hr.
    change (cfg_ratio p (nm, rc, tc, fb)) with (rc p).
    destruct (qlt 0 (rc p)) eqn:E; [| destruct Hr].
    destruct Hr as [<- | []]; split; [apply qlt_true, E | reflexivity].
  - intros [cfg [Hc [Hpos ->]]]; exists cfg; split; [exact Hc |].
    destruct cfg as [[[nm rc] tc] fb]; cbv beta iota.
    change (cfg_ratio p (nm, rc, tc, fb)) with (rc p) in *.
    apply qlt_true in Hpos; rewrite Hpos; left; reflexivity.
Qed.

Lemma schedule_rows_count (p : project) (cfgs : list stage_config) :
  let rows := flat_map (fun cfg =>
      let '(stage, ratio_col, _, _) := cfg in
      let ratio := ratio_col p in
      let payment_date := stage_payment_date p cfg in
      if qlt 0 ratio
      then [mkPayRow (customer p) (business_line p) stage ratio
              (final_amount p * (ratio / 100))%Q payment_date (final_amount p)]
      else []) cfgs in
  length rows = length (filter (fun cfg => qlt 0 (cfg_ratio p cfg)) cfgs)
  /\ (sum_q (map pay_amount rows)
      == final_amount p
         * sum_q (map (cfg_ratio p) (filter (fun cfg => qlt 0 (cfg_ratio p cfg)) cfgs)) / 100)%Q.
Proof.
  cbv zeta; induction cfgs as [| cfg cfgs [IH1 IH2]].
  - split; [reflexivity | unfold sum_q; simpl; unfold Qdiv; ring].
  - cbn [flat_map filter]; rewrite length_app, map_app.
    destruct cfg as [[[nm rc] tc] fb]; cbv beta iota.
    change (cfg_ratio p (nm, rc, tc, fb)) with (rc p).
    destruct (qlt 0 (rc p)); cbn [length map app pay_amount].
    + change (cfg_ratio p (nm, rc, tc, fb)) with (rc p).
      split; [rewrite IH1; reflexivity |].
      rewrite !sum_q_cons, IH2; unfold Qdiv; ring.
    + split; [exact IH1 | exact IH2].
Qed.

(** X4: the payment schedule of a project has one row per stage with a
    positive ratio, dated or not, carrying the customer, the business line,
    the stage name, the ratio, the amount revenue * ratio / 100, the
    resolved payment date and the revenue; the amounts add up to revenue
    times the sum of the positive ratios / 100 (whatever the sign of the
    revenue); the rows are in ascending date order and the undated rows come
    after every dated one. *)
Theorem payment_schedule_spec (p : project) :
  let s := get_project_payment_schedule p in
  (forall r, In r s
     <-> exists cfg, In cfg stage_configs /\ (0 < cfg_ratio p cfg)%Q
         /\ r = mkPayRow (customer p) (business_line p) (fst (fst (fst cfg))) (cfg_ratio p cfg)
                  (final_amount p * (cfg_ratio p cfg / 100))%Q (stage_payment_date p cfg)
                  (final_amount p))
  /\ length s = length (filter (fun cfg => qlt 0 (cfg_ratio p cfg)) stage_configs)
  /\ (sum_q (map pay_amount s)
      == final_amount p
         * sum_q (map (cfg_ratio p) (filter (fun cfg => qlt 0 (cfg_ratio p cfg)) stage_configs))
         / 100)%Q
  /\ Sorted (fun a b => pay_date_le (pay_date a) (pay_date b) = true) s
  /\ (forall l1 r l2, s = l1 ++ r :: l2 -> pay_date r = None ->
        forall r', In r' l2 -> pay_date r' = None).
Proof.
  cbv zeta; unfold get_project_payment_schedule.
  pose proof (sort_pay_perm (schedule_rows p)) as P.
  destruct (schedule_rows_count p stage_configs) as [C1 C2].
  split; [| split; [| split; [| split]]].
  - intros r; rewrite <- schedule_rows_in; split; apply Permutation_in;
      [apply Permutation_sym, P | exact P].
  - rewrite <- (Permutation_length P); exact C1.
  - rewrite <- (sum_q_perm _ _ _ _ P); exact C2.
  - apply sort_pay_sorted.
  - intros l1 r l2 Hs Hr.
    pose proof (sort_pay_sorted (schedule_rows p)) as Ss; rewrite Hs in Ss.
    exact (sorted_pay_none_tail r l2 (sorted_app_r _ _ l1 _ Ss) Hr).
Qed.

Lemma Permutation_filter_bool (A : Type) (f : A -> bool) (l l' : list A) :
  Permutation l l' -> Permutation (filter f l) (filter f l').
Proof.
  induction 1 as [| x l l' _ IH | x y l | l l' l'' _ IH1 _ IH2]; simpl.
  - constructor.
  - destruct (f x); [apply perm_skip |]; exact IH.
  - destruct (f x), (f y); try constructor; reflexivity.
  - eapply perm_trans; [exact IH1 | exact IH2].
Qed.

Lemma schedule_dated_rows (p : project) (cfgs : list stage_config) :
  (0 < final_amount p)%Q ->
  map (fun e => (cf_type e, cf_amount e, Some (cf_date e))) (flat_map (stage_entries p) cfgs)
  = map (fun r => (pay_stage r, pay_amount r, pay_date r))
      (filter (fun r => isSome (pay_date r))
         (flat_map (fun cfg =>
              let '(stage, ratio_col, _, _) := cfg in
              let ratio := ratio_col p in
              let payment_date := stage_payment_date p cfg in
              if qlt 0 ratio
              then [mkPayRow (customer p) (business_line p) stage ratio
                      (final_amount p * (ratio / 100))%Q payment_date (final_amount p)]
              else []) cfgs)).
Proof.
  intros Hpos; induction cfgs as [| cfg cfgs IH]; [reflexivity |].
  cbn [flat_map]; rewrite filter_app, !map_app, IH; f_equal.
  destruct cfg as [[[nm rc] tc] fb]; unfold stage_entries; cbv beta iota zeta.
  destruct (qlt 0 (rc p)) eqn:E1; [| reflexivity].
  destruct (stage_payment_date p (nm, rc, tc, fb)) as [d |]; [| reflexivity].
  assert (Ha : qlt 0 (final_amount p * (rc p / 100)) = true).
  { apply qlt_true in E1; apply qlt_true, Qmult_lt_0_compat; [exact Hpos |].
    unfold Qdiv; apply Qmult_lt_0_compat; [exact E1 | reflexivity]. }
  rewrite Ha; reflexivity.
Qed.

(** X5: for a project with a positive revenue, the dated rows of its
    payment schedule are, up to order, exactly its cash-flow entries: the
    same stages with the same amounts and the same payment dates. *)
Theorem schedule_matches_cash_flow (p : project) :
  (0 < final_amount p)%Q ->
  Permutation
    (map (fun e => (cf_type e, cf_amount e, Some (cf_date e)))
         (calculate_single_project_cash_flow p))
    (map (fun r => (pay_stage r, pay_amount r, pay_date r))
         (filter (fun r => isSome (pay_date r)) (get_project_payment_schedule p))).
Proof.
  intros Hpos; unfold get_project_payment_schedule.
  eapply perm_trans; [| apply Permutation_map, Permutation_filter_bool, sort_pay_perm].
  unfold calculate_single_project_cash_flow, schedule_rows.
  rewrite (schedule_dated_rows p stage_configs Hpos); reflexivity.
Qed.

Lemma schedule_matches_cash_flow_witness :
  (0 < final_amount Samples.undated_start_project)%Q
  /\ Permutation
       (map (fun e => (cf_type e, cf_amount e, Some (cf_date e)))
            (calculate_single_project_cash_flow Samples.undated_start_project))
       (map (fun r => (pay_stage r, pay_amount r, pay_date r))
            (filter (fun r => isSome (pay_date r))
               (get_project_payment_schedule Samples.undated_start_project))).
Proof.
  assert (H : (0 < final_amount Samples.undated_start_project)%Q) by (vm_compute; reflexivity).
  split; [exact H | exact (schedule_matches_cash_flow Samples.undated_start_project H)].
Defined.

(* ------------------------------------------------------------------ *)
(** ** Stage income columns merged into the project table *)

Lemma filter_filter_and (A : Type) (f g : A -> bool) (l : list A) :
  filter f (filter g l) = filter (fun x => g x && f x) l.
Proof.
  induction l as [| x l IH]; simpl; [reflexivity |].
  destruct (g x); simpl; [destruct (f x); simpl; rewrite IH |]; exact IH || reflexivity.
Qed.

Lemma flat_map_length_le1 (A B : Type) (f : A -> list B) (l : list A) :
  (forall x, (length (f x) <= 1)%nat) -> (length (flat_map f l) <= length l)%nat.
Proof.
  intros Hf; induction l as [| x l IH]; simpl; [lia |].
  rewrite length_app; specialize (Hf x); lia.
Qed.

Lemma merge_nonempty (ps : list project) (es : list entry) (suffix : string) :
  ps <> [] -> es <> [] ->
  merge_with_original_df ps es suffix
  = flat_map (fun stage_name =>
        let stage_cash := filter (fun e => String.eqb (cf_type e) stage_name) es in
        match stage_cash with
        | [] => []
        | _ => [((stage_name ++ suffix)%string, map (stage_income stage_cash) ps)]
        end)
      merge_stages.
Proof. intros Hp He; destruct ps, es; try congruence; reflexivity. Qed.

(** X3: merging the cash flows back into the project table adds nothing
    when the table or the cash flows are empty. Otherwise it adds at most 4
    columns, one for each stage that has cash-flow rows, named stage name ++
    suffix; the value of a project row in that column is the sum of the
    amounts of the entries of that stage whose project name is the row's
    customer and whose business line is the row's business line (0 when
    there is none). *)
Theorem merge_columns_spec (ps : list project) (es : list entry) (suffix : string) :
  let cols := merge_with_original_df ps es suffix in
  ((ps = [] \/ es = []) -> cols = [])
  /\ (length cols <= 4)%nat
  /\ (ps <> [] -> forall name vals, In (name, vals) cols <->
        exists stage, In stage merge_stages /\ (exists e, In e es /\ cf_type e = stage)
          /\ name = (stage ++ suffix)%string
          /\ vals = map (fun p => sum_q (map cf_amount
                       (filter (fun e => String.eqb (cf_type e) stage
                                         && (String.eqb (cf_project e) (customer p)
                                             && String.eqb (cf_line e) (business_line p))) es)))
                       ps).
Proof.
  cbv zeta.
  assert (Hv : forall stage (p : project),
             stage_income (filter (fun e => String.eqb (cf_type e) stage) es) p
             = sum_q (map cf_amount
                 (filter (fun e => String.eqb (cf_type e) stage
                                   && (String.eqb (cf_project e) (customer p)
                                       && String.eqb (cf_line e) (business_line p))) es))).
  { intros stage p; unfold stage_income; rewrite filter_filter_and; reflexivity. }
  split; [| split].
  - intros [-> | ->]; [reflexivity | destruct ps; reflexivity].
  - destruct ps as [| p0 ps0]; [simpl; lia |].
    destruct es as [| e0 es0]; [simpl; lia |].
    rewrite merge_nonempty by discriminate.
    change 4%nat with (length merge_stages); apply flat_map_length_le1.
    intros x; destruct (filter _ _); simpl; lia.
  - intros Hp name vals.
    destruct es as [| e0 es0].
    + destruct ps; [contradiction |]; simpl; split; [intros [] |].
      intros (stage & _ & (e & [] & _) & _).
    + rewrite merge_nonempty by (assumption || discriminate); rewrite in_flat_map; split.
      * intros [stage [Hs Hin]].
        destruct (filter (fun e => String.eqb (cf_type e) stage) (e0 :: es0))
          as [| e1 l1] eqn:Ef; [destruct Hin |].
        destruct Hin as [Heq | []]; injection Heq as <- <-.
        exists stage; split; [exact Hs | split; [| split; [reflexivity |]]].
        -- assert (H1 : In e1 (filter (fun e => String.eqb (cf_type e) stage) (e0 :: es0)))
             by (rewrite Ef; left; reflexivity).
           apply filter_In in H1; destruct H1 as [H1 H2].
           exists e1; split; [exact H1 | apply String.eqb_eq, H2].
        -- rewrite <- Ef; apply map_ext; intros p; apply Hv.
      * intros (stage & Hs & (e & He & Het) & -> & ->).
        exists stage; split; [exact Hs |].
        destruct (filter (fun e => String.eqb (cf_type e) stage) (e0 :: es0))
          as [| e1 l1] eqn:Ef.
        -- exfalso.
           assert (H1 : In e (filter (fun e => String.eqb (cf_type e) stage) (e0 :: es0)))
             by (apply filter_In; split; [exact He | apply String.eqb_eq, Het]).
           rewrite Ef in H1; destruct H1.
        -- left; f_equal; rewrite <- Ef; apply map_ext; intros p; apply Hv.
Qed.

(* ------------------------------------------------------------------ *)
(** ** Monthly income summary over a date range *)

Lemma format_eq_of_index (a b : Z * Z) :
  1 <= snd a <= 12 -> 1 <= snd b <= 12 -> month_index a = month_index b -> a = b.
Proof.
  destruct a as [y1 m1], b as [y2 m2]; unfold month_index; simpl; intros Ha Hb H.
  assert (y1 = y2) by lia; subst; f_equal; lia.
Qed.

Lemma days_in_month_pos y m : 1 <= days_in_month y m.
Proof.
  unfold days_in_month; destruct (m =? 2); [destruct (isleap y) |];
    try destruct (_ || _); lia.
Qed.

Lemma date_leb_index (a b : date) :
  day a = 1 -> day b = 1 -> 1 <= month a <= 12 -> 1 <= month b <= 12 ->
  date_leb a b = Z.leb (month_index (format_to_month a)) (month_index (format_to_month b)).
Proof.
  destruct a as [y1 m1 d1], b as [y2 m2 d2];
    unfold date_leb, month_index, format_to_month; simpl; intros -> -> Ha Hb.
  destruct (Z.ltb_spec y1 y2), (Z.eqb_spec y1 y2), (Z.ltb_spec m1 m2), (Z.eqb_spec m1 m2);
    simpl; symmetry; first [apply Z.leb_le; lia | apply Z.leb_gt; lia].
Qed.

Lemma add_months_first (d : date) (k : Z) :
  day d = 1 -> day (add_months d k) = 1.
Proof.
  intros Hd; unfold add_months; simpl; rewrite Hd.
  pose proof (days_in_month_pos (year d + (month d - 1 + k) / 12) ((month d - 1 + k) mod 12 + 1)).
  lia.
Qed.

Lemma add_months_zero_first (d : date) :
  day d = 1 -> 1 <= month d <= 12 -> add_months d 0 = d.
Proof.
  destruct d as [y m dd]; simpl; intros -> Hm; unfold add_months; simpl.
  rewrite Z.add_0_r.
  rewrite (Z.div_small (m - 1) 12) by lia; rewrite (Z.mod_small (m - 1) 12) by lia.
  pose proof (days_in_month_pos (y + 0) (m - 1 + 1)).
  f_equal; lia.
Qed.

Lemma month_loop_consecutive (fuel : nat) : forall (cur end_ : date),
  day cur = 1 -> 1 <= month cur <= 12 -> day end_ = 1 -> 1 <= month end_ <= 12 ->
  (Z.to_nat (month_index (format_to_month end_) - month_index (format_to_month cur) + 1)
     <= fuel)%nat ->
  month_loop fuel cur end_
  = map (fun i => format_to_month (add_months cur (Z.of_nat i)))
        (seq 0 (Z.to_nat (month_index (format_to_month end_)
                          - month_index (format_to_month cur) + 1))).
Proof.
  induction fuel as [| f IH]; intros cur end_ Hcd Hcm Hed Hem Hfuel.
  - assert (Z.to_nat (month_index (format_to_month end_)
                      - month_index (format_to_month cur) + 1) = 0%nat) as -> by lia.
    reflexivity.
  - cbn [month_loop]; rewrite date_leb_index by assumption.
    destruct (Z.leb_spec (month_index (format_to_month cur)) (month_index (format_to_month end_)))
      as [Hle | Hgt].
    + destruct (add_months_index cur 1) as [Hi1 Hm1].
      pose proof (add_months_first cur 1 Hcd) as Hd1.
      rewrite (IH (add_months cur 1) end_ Hd1 Hm1 Hed Hem) by (rewrite Hi1; lia).
      rewrite Hi1.
      replace (Z.to_nat (month_index (format_to_month end_)
                         - month_index (format_to_month cur) + 1))
        with (S (Z.to_nat (month_index (format_to_month end_)
                           - (month_index (format_to_month cur) + 1) + 1))) by lia.
      rewrite <- cons_seq, <- seq_shift, map_cons, map_map.
      change (Z.of_nat 0) with 0; rewrite (add_months_zero_first cur Hcd Hcm); f_equal.
      apply map_ext; intros i.
      apply format_eq_of_index.
      * apply (add_months_index (add_months cur 1) (Z.of_nat i)).
      * apply (add_months_index cur (Z.of_nat (S i))).
      * rewrite (proj1 (add_months_index (add_months cur 1) (Z.of_nat i))), Hi1.
        rewrite (proj1 (add_months_index cur (Z.of_nat (S i)))); lia.
    + assert (Z.to_nat (month_index (format_to_month end_)
                        - month_index (format_to_month cur) + 1) = 0%nat) as -> by lia.
      reflexivity.
Qed.

Lemma sum_indicator_notin (x : Z * Z) (a : Q) (ks : list (Z * Z)) :
  ~ In x ks -> (sum_q (map (fun k => if month_eqb x k then a else 0%Q) ks) == 0)%Q.
Proof.
  induction ks as [| k ks IH]; intros Hn; simpl; [reflexivity |].
  destruct (month_eqb x k) eqn:E.
  - apply month_eqb_iff in E; subst; exfalso; apply Hn; left; reflexivity.
  - rewrite IH; [ring | intros H; apply Hn; right; exact H].
Qed.

Lemma sum_q_map_plus (A : Type) (f g : A -> Q) (l : list A) :
  (sum_q (map (fun x => f x + g x) l) == sum_q (map f l) + sum_q (map g l))%Q.
Proof.
  induction l as [| x l IH]; cbn [map]; rewrite ?sum_q_cons; [reflexivity |].
  rewrite IH; ring.
Qed.

Lemma month_income_cons (e : uentry) (cf : list uentry) (m : Z * Z) :
  (month_income (e :: cf) m
   == match u_month e with
      | Some k => if month_eqb k m then u_amount e else 0%Q
      | None => 0%Q
      end + month_income cf m)%Q.
Proof.
  unfold month_income; cbn [filter].
  destruct (u_month e) as [k |]; [destruct (month_eqb k m) |];
    cbn [map]; rewrite ?sum_q_cons; ring.
Qed.

Lemma month_income_partition (cf : list uentry) (ms : list (Z * Z)) :
  NoDup ms ->
  (sum_q (map (month_income cf) ms)
   == sum_q (map u_amount (filter (fun e => match u_month e with
                                            | Some k => if in_dec month_eq_dec k ms
                                                        then true else false
                                            | None => false
                                            end) cf)))%Q.
Proof.
  intros Hnd; induction cf as [| e cf IH].
  - cbn [filter map]; clear Hnd.
    induction ms as [| m ms IHm]; [reflexivity |].
    cbn [map]; rewrite sum_q_cons, IHm; reflexivity.
  - rewrite (sum_q_map_ext _ _ _ _ (fun m _ => month_income_cons e cf m)).
    rewrite sum_q_map_plus, IH; cbn [filter].
    destruct (u_month e) as [k |].
    + destruct (in_dec month_eq_dec k ms) as [Hin | Hnin]; cbn [map]; rewrite ?sum_q_cons.
      * rewrite (sum_indicator k (u_amount e) ms Hnd Hin); reflexivity.
      * rewrite (sum_indicator_notin k (u_amount e) ms Hnin); ring.
    + assert (Hz : forall l : list (Z * Z), (sum_q (map (fun _ => 0%Q) l) == 0)%Q).
      { induction l as [| x l IHl]; cbn [map]; rewrite ?sum_q_cons; [reflexivity |].
        rewrite IHl; ring. }
      rewrite Hz; ring.
Qed.

(** X12: when the projects produce no cash-flow entry the income summary is
    empty. Otherwise, for a start and an end date with valid months, it has
    one row per month from the start month to the end month (none when the
    start month is after the end month), consecutive and in order; each
    row's income is the total of the entries of that month; and the incomes
    add up to the total of the entries whose month lies in the range, so an
    entry without a payment month is never counted. *)
Theorem monthly_income_summary_spec (table : list sched_row) (df : list project)
    (sd ed : date) :
  1 <= month sd <= 12 -> 1 <= month ed <= 12 ->
  let cf := calculate_all_cash_flows table df in
  let rows := get_monthly_income_summary table df sd ed in
  (cf = [] -> rows = [])
  /\ (cf <> [] ->
      length rows
        = Z.to_nat (month_index (format_to_month ed) - month_index (format_to_month sd) + 1)
      /\ (forall i, (i < length rows)%nat ->
            month_index (fst (nth i rows ((0, 0), 0%Q)))
              = month_index (format_to_month sd) + Z.of_nat i
            /\ 1 <= snd (fst (nth i rows ((0, 0), 0%Q))) <= 12
            /\ snd (nth i rows ((0, 0), 0%Q)) = month_income cf (fst (nth i rows ((0, 0), 0%Q))))
      /\ (sum_q (map snd rows)
          == sum_q (map u_amount
               (filter (fun e => match u_month e with
                                 | Some k => Z.leb 1 (snd k) && Z.leb (snd k) 12
                                             && Z.leb (month_index (format_to_month sd))
                                                      (month_index k)
                                             && Z.leb (month_index k)
                                                      (month_index (format_to_month ed))
                                 | None => false
                                 end) cf)))%Q).
Proof.
  intros Hsm Hem; cbv zeta.
  unfold get_monthly_income_summary; cbv zeta.
  split; [intros ->; reflexivity | intros Hne].
  set (N := Z.to_nat (month_index (format_to_month ed) - month_index (format_to_month sd) + 1)).
  set (F := fun i : nat => format_to_month (add_months (first_of_month sd) (Z.of_nat i))).
  assert (Hloop : month_loop (month_span sd ed) (first_of_month sd) (first_of_month ed)
                  = map F (seq 0 N)).
  { apply month_loop_consecutive; unfold month_span; simpl; try reflexivity; try assumption.
    unfold N, format_to_month, first_of_month; simpl; lia. }
  assert (HF : forall i, month_index (F i) = month_index (format_to_month sd) + Z.of_nat i
                         /\ 1 <= snd (F i) <= 12).
  { intros i; unfold F; destruct (add_months_index (first_of_month sd) (Z.of_nat i)) as [H1 H2].
    split; [rewrite H1; reflexivity | exact H2]. }
  destruct (calculate_all_cash_flows table df) as [| e0 cf0] eqn:Ecf; [contradiction |].
  rewrite <- Ecf, Hloop.
  split; [| split].
  - rewrite !length_map, length_seq; reflexivity.
  - intros i Hi; rewrite !length_map, length_seq in Hi.
    rewrite (nth_indep _ _ (let m := F 0%nat in (m, month_income (calculate_all_cash_flows table df) m)))
      by (rewrite !length_map, length_seq; exact Hi).
    rewrite map_map, (map_nth (fun x => (F x, month_income _ (F x)))), seq_nth by exact Hi.
    cbn [fst snd]; split; [apply HF | split; [apply HF | reflexivity]].
  - rewrite map_map; cbn [snd].
    rewrite month_income_partition.
    + match goal with
      | |- (sum_q (map _ (filter ?f ?l)) == sum_q (map _ (filter ?g ?l)))%Q =>
          enough (E : filter f l = filter g l) by (rewrite E; reflexivity)
      end.
      apply filter_ext; intros e.
      destruct (u_month e) as [k |]; [| reflexivity].
      destruct (in_dec month_eq_dec k (map F (seq 0 N))) as [Hin | Hnin].
      * apply in_map_iff in Hin; destruct Hin as [i [<- Hi]]; apply in_seq in Hi.
        destruct (HF i) as [H1 H2]; rewrite H1.
        unfold N in Hi; symmetry.
        repeat rewrite Bool.andb_true_iff; rewrite !Z.leb_le; lia.
      * symmetry; apply Bool.not_true_iff_false; intros H.
        repeat rewrite Bool.andb_true_iff in H; rewrite !Z.leb_le in H.
        apply Hnin, in_map_iff.
        exists (Z.to_nat (month_index k - month_index (format_to_month sd))); split.
        -- apply format_eq_of_index; [apply HF | lia |].
           rewrite (proj1 (HF _)); lia.
        -- apply in_seq; unfold N; lia.
    + apply (NoDup_map_inv month_index).
      rewrite map_map.
      rewrite (map_ext _ (fun i => month_index (format_to_month sd) + Z.of_nat i))
        by (intros i; apply HF).
      apply NoDup_map_NoDup_ForallPairs; [| apply seq_NoDup].
      intros x y _ _ H; lia.
Qed.

Lemma monthly_income_summary_spec_witness :
  1 <= month (mkDate 2024 1 5) <= 12 /\ 1 <= month (mkDate 2024 8 20) <= 12
  /\ length (get_monthly_income_summary [] [Samples.dated_project]
               (mkDate 2024 1 5) (mkDate 2024 8 20)) = 8%nat.
Proof.
  assert (H1 : 1 <= month (mkDate 2024 1 5) <= 12) by (simpl; lia).
  assert (H2 : 1 <= month (mkDate 2024 8 20) <= 12) by (simpl; lia).
  split; [exact H1 | split; [exact H2 |]].
  pose proof (monthly_income_summary_spec [] [Samples.dated_project] _ _ H1 H2) as W.
  cbv zeta in W; destruct W as [_ W].
  assert (Hne : calculate_all_cash_flows [] [Samples.dated_project] <> [])
    by (intros H0; vm_compute in H0; discriminate).
  rewrite (proj1 (W Hne)); reflexivity.
Defined.

(* ------------------------------------------------------------------ *)
(** ** Unified cash-flow service: templates and saved stages *)

Lemma dict_get_in (A : Type) (k : string) (d : list (string * A)) (v : A) :
  dict_get k d = Some v -> In v (map snd d).
Proof.
  induction d as [| [k' v'] d IH]; simpl; [discriminate |].
  destruct (String.eqb k' k); [intros H; injection H as ->; left; reflexivity |].
  intros H; right; apply IH, H.
Qed.

Lemma catalog_templates_ok (t : list tstage) :
  In t (map snd PAYMENT_TEMPLATES) ->
  t <> []
  /\ (forall st, In st t -> (0 < ts_ratio st)%Q)
  /\ (sum_q (map ts_ratio t) == 1)%Q
  /\ validate_template (map (fun st => mkVStage (Some (ts_name st)) (ts_ratio st)) t)
     = (true, NoMessage).
Proof.
  unfold PAYMENT_TEMPLATES; cbn [map snd In].
  intros H; repeat destruct H as [<- | H]; try destruct H;
    (split; [discriminate | split; [| split; vm_compute; reflexivity]]);
    intros st Hst; repeat destruct Hst as [<- | Hst]; try destruct Hst;
    vm_compute; reflexivity.
Qed.

Lemma get_template_in (name : string) : In (get_template name) (map snd PAYMENT_TEMPLATES).
Proof.
  unfold get_template.
  destruct (dict_get name PAYMENT_TEMPLATES) as [t |] eqn:E; [apply (dict_get_in _ _ _ _ E) |].
  vm_compute; left; reflexivity.
Qed.


Lemma project_stages_saved (table : list sched_row) (p : project) :
  snd (get_project_payment_stages table (record_id p)) <> [] ->
  project_stages table p = snd (get_project_payment_stages table (record_id p)).
Proof.
  intros H; unfold project_stages.
  destruct (get_project_payment_stages table (record_id p)) as [nm [| s0 sv]];
    [contradiction | reflexivity].
Qed.

Lemma Qle_bool_pos (q : Q) : (0 < q)%Q -> Qle_bool q 0 = false.
Proof.
  intros H; destruct (Qle_bool q 0) eqn:E; [| reflexivity].
  apply Qle_bool_iff in E; exfalso; exact (Qlt_not_le _ _ H E).
Qed.


Lemma saved_path_form (table : list sched_row) (p : project) :
  (0 < final_amount p)%Q ->
  snd (get_project_payment_stages table (record_id p)) <> [] ->
  calculate_project_cash_flow table p
  = flat_map (fun st =>
      if Qle_bool (ds_ratio st) 0 then []
      else [mkUEntry (customer p) (business_line p) (ds_name st) (final_amount p * ds_ratio st)%Q
              (ds_date st) (option_map format_to_month (ds_date st)) (record_id p)])
    (snd (get_project_payment_stages table (record_id p))).
Proof.
  intros Hpos Hs.
  unfold calculate_project_cash_flow; cbv zeta.
  rewrite (Qle_bool_pos _ Hpos), (project_stages_saved table p Hs).
  destruct (snd (get_project_payment_stages table (record_id p))) as [| s0 sv]; [contradiction |].
  match goal with
  | |- flat_map ?f ?l = flat_map ?g ?l =>
      assert (Hg : forall m, flat_map f m = flat_map g m); [| apply Hg]
  end.
  intros l; induction l as [| st l IH]; [reflexivity |].
  cbn [flat_map]; rewrite IH; f_equal.
  destruct (Qle_bool (ds_ratio st) 0); [reflexivity |].
  destruct (ds_date st); reflexivity.
Qed.



(** X11: for a project with a positive revenue and saved payment stages,
    the cash flows are the saved stages with a positive ratio, in order,
    each with its name and its date, kept also when it has no date (its
    month is then empty); every amount is revenue * ratio, positive; the
    amounts add up to revenue times the sum of the positive saved ratios. *)
Theorem saved_stages_cash_flow (table : list sched_row) (p : project) :
  (0 < final_amount p)%Q ->
  snd (get_project_payment_stages table (record_id p)) <> [] ->
  let saved := snd (get_project_payment_stages table (record_id p)) in
  let es := calculate_project_cash_flow table p in
  map (fun e => (u_type e, u_date e)) es
    = map (fun st => (ds_name st, ds_date st)) (filter (fun st => qlt 0 (ds_ratio st)) saved)
  /\ (forall e, In e es ->
        u_month e = option_map format_to_month (u_date e) /\ (0 < u_amount e)%Q
        /\ u_project e = customer p /\ u_line e = business_line p /\ u_record_id e = record_id p)
  /\ (sum_q (map u_amount es)
      == final_amount p * sum_q (map ds_ratio (filter (fun st => qlt 0 (ds_ratio st)) saved)))%Q.
Proof.
  intros Hpos Hs; cbv zeta.
  rewrite (saved_path_form table p Hpos Hs).
  generalize (snd (get_project_payment_stages table (record_id p))) as l; intros l.
  induction l as [| st l (IH1 & IH2 & IH3)].
  - split; [reflexivity | split; [intros e [] | unfold sum_q; simpl; ring]].
  - cbn [flat_map filter]; change (qlt 0 (ds_ratio st)) with (negb (Qle_bool (ds_ratio st) 0)).
    destruct (Qle_bool (ds_ratio st) 0) eqn:E; cbn [negb app].
    + split; [exact IH1 | split; [exact IH2 | exact IH3]].
    + cbn [map]; split; [rewrite IH1; reflexivity | split].
      * intros e [<- | He]; [| apply IH2, He].
        cbn; repeat split.
        apply Qmult_lt_0_compat; [exact Hpos |].
        apply Qnot_le_lt; intros H; apply Qle_bool_iff in H; congruence.
      * rewrite !sum_q_cons, IH3; cbn [u_amount ds_ratio]; ring.
Qed.

Lemma saved_stages_cash_flow_witness :
  let table := [mkSchedRow "rec1"%string "全款"%string
                  [mkDStage "首付款"%string (1 # 2) None;
                   mkDStage "尾款"%string (1 # 2) (Some (mkDate 2024 3 1))]] in
  (0 < final_amount Samples.dated_project)%Q
  /\ snd (get_project_payment_stages table (record_id Samples.dated_project)) <> []
  /\ (sum_q (map u_amount (calculate_project_cash_flow table Samples.dated_project))
      == final_amount Samples.dated_project * 1)%Q.
Proof.
  intros table.
  assert (H1 : (0 < final_amount Samples.dated_project)%Q) by (vm_compute; reflexivity).
  assert (H2 : snd (get_project_payment_stages table (record_id Samples.dated_project)) <> [])
    by (vm_compute; discriminate).
  split; [exact H1 | split; [exact H2 |]].
  pose proof (saved_stages_cash_flow table Samples.dated_project H1 H2) as W.
  cbv zeta in W; destruct W as (_ & _ & W).
  rewrite W; vm_compute; reflexivity.
Defined.

(** X13: whatever the template name (an unknown one falls back to the
    default template), [get_template] returns a template of the catalog that
    [validate_template] accepts: non-empty, every stage named and with a
    positive ratio, and ratios summing to 1. *)
Theorem get_template_valid (name : string) :
  let t := get_template name in
  In t (map snd PAYMENT_TEMPLATES)
  /\ validate_template (map (fun st => mkVStage (Some (ts_name st)) (ts_ratio st)) t)
     = (true, NoMessage)
  /\ (forall st, In st t -> (0 < ts_ratio st)%Q)
  /\ (sum_q (map ts_ratio t) == 1)%Q.
Proof.
  cbv zeta.
  destruct (catalog_templates_ok _ (get_template_in name)) as (_ & H1 & H2 & H3).
  split; [apply get_template_in | split; [exact H3 | split; [exact H1 | exact H2]]].
Qed.

(* ------------------------------------------------------------------ *)
(** ** Final amount: override order and rounding *)

Lemma ts_le_antisym a b : ts_le a b = true -> ts_le b a = true -> a = b.
Proof.
  destruct a as [x |], b as [y |]; simpl; try reflexivity; try discriminate.
  rewrite !Z.leb_le; intros; f_equal; lia.
Qed.

Lemma latest_override_sorted_perm (overrides s1 s2 : list override) (rid : string) :
  Permutation overrides s1 -> Sorted ov_le s1 ->
  Permutation overrides s2 -> Sorted ov_le s2 ->
  (forall o1 o2, In o1 overrides -> In o2 overrides ->
     ov_record_id o1 = ov_record_id o2 -> updated_at o1 = updated_at o2 ->
     override_amount o1 = override_amount o2) ->
  latest_override_amount rid s1 = latest_override_amount rid s2.
Proof.
  intros P1 S1 P2 S2 Huniq.
  assert (Htr : forall a b c, ov_le a b -> ov_le b c -> ov_le a c)
    by (intros a b c; unfold ov_le; apply ts_le_trans).
  assert (SS1 := Sorted_StronglySorted Htr S1).
  assert (SS2 := Sorted_StronglySorted Htr S2).
  assert (I1 : forall o, In o overrides <-> In o s1)
    by (intros o; split; [apply Permutation_in, P1 | apply Permutation_in, Permutation_sym, P1]).
  assert (I2 : forall o, In o overrides <-> In o s2)
    by (intros o; split; [apply Permutation_in, P2 | apply Permutation_in, Permutation_sym, P2]).
  destruct (List.existsb (fun o => String.eqb (ov_record_id o) rid) overrides) eqn:Ex.
  - apply existsb_exists in Ex; destruct Ex as [x [Hx Hxr]]; apply String.eqb_eq in Hxr.
    destruct (latest_override_max rid s1 SS1 (ex_intro _ x (conj (proj1 (I1 x) Hx) Hxr)))
      as [m1 [Hm1 [Hm1r [Hl1 Hmax1]]]].
    destruct (latest_override_max rid s2 SS2 (ex_intro _ x (conj (proj1 (I2 x) Hx) Hxr)))
      as [m2 [Hm2 [Hm2r [Hl2 Hmax2]]]].
    rewrite Hl1, Hl2; f_equal.
    apply Huniq; [apply I1, Hm1 | apply I2, Hm2 | congruence |].
    apply ts_le_antisym.
    + exact (Hmax2 m1 (proj1 (I2 m1) (proj2 (I1 m1) Hm1)) Hm1r).
    + exact (Hmax1 m2 (proj1 (I1 m2) (proj2 (I2 m2) Hm2)) Hm2r).
  - assert (Hno : forall o, In o overrides -> ov_record_id o <> rid).
    { intros o Ho Hor.
      assert (Hc : List.existsb (fun o => String.eqb (ov_record_id o) rid) overrides = true)
        by (apply existsb_exists; exists o; split; [exact Ho | apply String.eqb_eq, Hor]).
      congruence. }
    rewrite !latest_override_none; [reflexivity | |];
      intros o Ho; apply Hno; [apply I2 | apply I1]; exact Ho.
Qed.

Lemma round_half_even_comp (p q : Q) : (p == q)%Q -> round_half_even p = round_half_even q.
Proof.
  intros H; unfold round_half_even.
  rewrite (Qfloor_comp p q H).
  set (f := Qfloor q).
  assert (Hr : (p - inject_Z f == q - inject_Z f)%Q) by (rewrite H; reflexivity).
  destruct (Qle_bool (1 # 2) (p - inject_Z f)) eqn:E1,
           (Qle_bool (1 # 2) (q - inject_Z f)) eqn:E2;
    try (apply Qle_bool_iff in E1; rewrite Hr in E1; apply Qle_bool_iff in E1; congruence);
    try (apply Qle_bool_iff in E2; rewrite <- Hr in E2; apply Qle_bool_iff in E2; congruence);
    [| reflexivity].
  destruct (Qeq_bool (p - inject_Z f) (1 # 2)) eqn:F1,
           (Qeq_bool (q - inject_Z f) (1 # 2)) eqn:F2; try reflexivity;
    [apply Qeq_bool_iff in F1; rewrite Hr in F1; apply Qeq_bool_iff in F1; congruence
    |apply Qeq_bool_iff in F2; rewrite <- Hr in F2; apply Qeq_bool_iff in F2; congruence].
Qed.

Lemma round_half_even_Z (z : Z) : round_half_even (inject_Z z) = z.
Proof.
  unfold round_half_even; rewrite Qfloor_Z.
  replace (Qle_bool (1 # 2) (inject_Z z - inject_Z z)) with false; [reflexivity |].
  symmetry; destruct (Qle_bool (1 # 2) (inject_Z z - inject_Z z)) eqn:E; [| reflexivity].
  apply Qle_bool_iff in E; exfalso; lra.
Qed.

Lemma round_half_even_close (q : Q) :
  (- (1 # 2) <= inject_Z (round_half_even q) - q <= 1 # 2)%Q.
Proof.
  unfold round_half_even.
  assert (Hf := Qfloor_le q); assert (Hl := Qlt_floor q).
  rewrite inject_Z_plus in Hl; change (inject_Z 1) with 1%Q in Hl.
  destruct (Qle_bool (1 # 2) (q - inject_Z (Qfloor q))) eqn:E.
  - apply Qle_bool_iff in E.
    assert (Hup : (inject_Z (Qfloor q + 1) - q <= 1 # 2)%Q)
      by (rewrite inject_Z_plus; change (inject_Z 1) with 1%Q; lra).
    assert (Hlo : (- (1 # 2) <= inject_Z (Qfloor q + 1) - q)%Q)
      by (rewrite inject_Z_plus; change (inject_Z 1) with 1%Q; lra).
    destruct (Qeq_bool (q - inject_Z (Qfloor q)) (1 # 2)) eqn:F;
      [destruct (Z.even (Qfloor q)) | ]; try (split; assumption).
    apply Qeq_bool_iff in F; lra.
  - assert (E' : ~ (1 # 2 <= q - inject_Z (Qfloor q))%Q)
      by (intros C; apply Qle_bool_iff in C; congruence).
    apply Qnot_le_lt in E'; lra.
Qed.

(** X14: the final amount of a row is the resolved amount (latest override,
    else the prediction) rounded to two decimals: it lies within half a
    hundredth of the resolved amount, and rounding it again leaves it
    unchanged. *)
Theorem final_amount_rounding (sorted_overrides : list override) (r : prow) :
  let raw := match latest_override_amount (pr_record_id r) sorted_overrides with
             | Some manual => manual
             | None => row_pred_amount r
             end in
  (Qabs (final_amount_of sorted_overrides r - raw) <= 1 # 200)%Q
  /\ (round2 (final_amount_of sorted_overrides r) == final_amount_of sorted_overrides r)%Q.
Proof.
  cbv zeta; unfold final_amount_of.
  generalize (match latest_override_amount (pr_record_id r) sorted_overrides with
              | Some manual => manual
              | None => row_pred_amount r
              end) as q; intros q.
  split.
  - apply Qabs_Qle_condition.
    destruct (round_half_even_close (q * 100)) as [H1 H2].
    unfold round2.
    set (z := inject_Z (round_half_even (q * 100))) in *.
    assert (E : (z / 100 - q == (z - q * 100) * (1 # 100))%Q) by field.
    rewrite E; split; lra.
  - unfold round2 at 1.
    rewrite (round_half_even_comp (round2 q * 100) (inject_Z (round_half_even (q * 100))))
      by (unfold round2; field).
    rewrite round_half_even_Z; reflexivity.
Qed.

(** X15: when the overrides of one record that share an [updated_at] carry
    the same amount, the final amount column does not depend on the order
    of the rows of the Overrides table. *)
Theorem final_amount_override_order (overrides overrides' : list override) (rows : list prow) :
  Permutation overrides overrides' ->
  (forall o1 o2, In o1 overrides -> In o2 overrides ->
     ov_record_id o1 = ov_record_id o2 -> updated_at o1 = updated_at o2 ->
     override_amount o1 = override_amount o2) ->
  final_amount_column overrides rows = final_amount_column overrides' rows.
Proof.
  intros Hp Huniq; unfold final_amount_column.
  apply map_ext; intros r; unfold final_amount_of.
  rewrite (latest_override_sorted_perm overrides (sort_overrides overrides)
             (sort_overrides overrides') (pr_record_id r));
    [reflexivity | apply sort_overrides_perm | apply sort_overrides_sorted
    | | apply sort_overrides_sorted | exact Huniq].
  eapply perm_trans; [exact Hp | apply sort_overrides_perm].
Qed.

Lemma final_amount_override_order_witness :
  let ovs := [mkOverride "rec1" 20 (Some 5%Z); mkOverride "rec1" 30 (Some 9%Z);
              mkOverride "rec2" 7 None] in
  Permutation ovs (rev ovs)
  /\ final_amount_column ovs [mkPRow "rec1" (Some "100"%string) "50" 1]
     = final_amount_column (rev ovs) [mkPRow "rec1" (Some "100"%string) "50" 1].
Proof.
  intros ovs.
  assert (Hp : Permutation ovs (rev ovs)) by apply Permutation_rev.
  split; [exact Hp |].
  apply final_amount_override_order; [exact Hp |].
  intros o1 o2 H1 H2 E1 E2.
  destruct H1 as [<- | [<- | [<- | []]]], H2 as [<- | [<- | [<- | []]]];
    solve [reflexivity | discriminate E1 | discriminate E2].
Defined.

(* ------------------------------------------------------------------ *)
(** ** Amount cells *)

Lemma space_not_number_char (c : ascii) :
  is_space c = true -> (is_digit c || Ascii.eqb c "."%char || Ascii.eqb c "-"%char) = false.
Proof.
  intros H.
  destruct (Ascii.eqb_spec c "."%char) as [-> | _]; [discriminate H |].
  destruct (Ascii.eqb_spec c "-"%char) as [-> | _]; [discriminate H |].
  rewrite !orb_false_r; unfold is_space, is_digit in *.
  set (n := nat_of_ascii c) in *.
  destruct (Nat.eqb_spec n 32), (Nat.leb_spec 9 n), (Nat.leb_spec n 13),
           (Nat.leb_spec 28 n), (Nat.leb_spec n 31), (Nat.leb_spec 48 n), (Nat.leb_spec n 57);
    simpl in *; try reflexivity; try discriminate; lia.
Qed.

Lemma keep_number_chars_lstrip (s : string) : keep_number_chars (lstrip s) = keep_number_chars s.
Proof.
  induction s as [| c r IH]; [reflexivity |].
  cbn [lstrip]; destruct (is_space c) eqn:E; [| reflexivity].
  rewrite IH; cbn [keep_number_chars]; rewrite (space_not_number_char c E); reflexivity.
Qed.

Lemma keep_number_chars_rstrip (s : string) : keep_number_chars (rstrip s) = keep_number_chars s.
Proof.
  induction s as [| c r IH]; [reflexivity |].
  cbn [rstrip]; destruct (is_space c && String.eqb (rstrip r) EmptyString) eqn:E.
  - apply andb_prop in E; destruct E as [Hs Hr]; apply String.eqb_eq in Hr.
    cbn [keep_number_chars]; rewrite (space_not_number_char c Hs), <- IH, Hr; reflexivity.
  - cbn [keep_number_chars]; rewrite IH; reflexivity.
Qed.

Lemma keep_number_chars_strip (s : string) : keep_number_chars (strip s) = keep_number_chars s.
Proof. unfold strip; rewrite keep_number_chars_rstrip, keep_number_chars_lstrip; reflexivity. Qed.

Lemma keep_number_chars_no_digit (s : string) :
  all_chars no_digit_char s = true -> all_chars no_digit_char (keep_number_chars s) = true.
Proof.
  induction s as [| c r IH]; [reflexivity |].
  cbn [all_chars keep_number_chars]; intros H; apply andb_prop in H; destruct H as [Hc Hr].
  destruct (_ || _); cbn [all_chars]; rewrite ?Hc, IH by exact Hr; reflexivity.
Qed.

Lemma keep_number_chars_rate (s : string) : all_chars rate_char (keep_number_chars s) = true.
Proof.
  induction s as [| c r IH]; [reflexivity |].
  cbn [keep_number_chars].
  destruct (is_digit c || Ascii.eqb c "." || Ascii.eqb c "-") eqn:E; [| exact IH].
  cbn [all_chars]; rewrite IH, andb_true_r.
  unfold rate_char, plain_char.
  destruct (is_digit c), (Ascii.eqb c "."), (Ascii.eqb c "-"); simpl in *;
    rewrite ?orb_true_r; congruence.
Qed.

(** X16: an amount cell is read from its digits, decimal points and minus
    signs alone: two non-empty cells with the same such characters (for
    example ["¥1,234.5"] and [" 1234.5 "]) read the same amount, whatever
    currency signs, thousands separators, spaces or other characters
    surround them; a cell without any digit reads 0. *)
Theorem parse_amount_wan_number_chars (s s' : string) :
  (s <> EmptyString -> s' <> EmptyString -> keep_number_chars s = keep_number_chars s' ->
   parse_amount_wan (Some s) = parse_amount_wan (Some s'))
  /\ (all_chars no_digit_char s = true -> parse_amount_wan (Some s) = 0%Q).
Proof.
  split.
  - intros Hs Hs' Hk; unfold parse_amount_wan.
    destruct (String.eqb_spec s EmptyString) as [E | _]; [contradiction |].
    destruct (String.eqb_spec s' EmptyString) as [E | _]; [contradiction |].
    rewrite !keep_number_chars_strip, Hk; reflexivity.
  - intros H; unfold parse_amount_wan.
    destruct (String.eqb s EmptyString); [reflexivity |].
    rewrite keep_number_chars_strip, (to_numeric_no_digit _ (keep_number_chars_no_digit s H)),
      (inf_word_rate _ (keep_number_chars_rate s)).
    destruct (_ || _); reflexivity.
Qed.

Lemma parse_amount_wan_number_chars_witness :
  parse_amount_wan (Some "¥1,234.5"%string) = parse_amount_wan (Some " 1234.5 "%string)
  /\ parse_amount_wan (Some "待定"%string) = 0%Q.
Proof.
  split.
  - apply (proj1 (parse_amount_wan_number_chars "¥1,234.5" " 1234.5 "));
      [discriminate | discriminate | reflexivity].
  - apply (proj2 (parse_amount_wan_number_chars "待定" EmptyString)); reflexivity.
Defined.
